(** * useMovies: the movie-search hook of usepopcorn

    A shallow embedding of [src/useMovies.js].  The hook owns three React
    state cells ([movies], [isLoading], [error]) and one effect that depends
    on [query].  The effect creates an [AbortController], short-circuits on
    queries whose [length] is below three, and otherwise calls the async
    function [fetchMovies], which suspends twice: at [await fetch(...)] and
    at [await res.json()].

    The asynchronous behaviour is modelled by an explicit event loop: the
    host (React and the browser's fetch) is the source of events, and every
    event runs one synchronous segment of the hook's code to its next
    suspension point. *)

From Stdlib Require Import String Ascii NArith Bool Lia DecimalString DecimalN.
From stdpp Require Import base list strings.

Local Open Scope string_scope.
Local Set Warnings "-register-all".

(** ** JavaScript values and exceptions *)

(** Values as the hook meets them: [undefined], and what [JSON.parse] builds.
    A number is kept as its literal, the hook never computes with one. *)
Inductive value : Type :=
| VUndefined
| VNull
| VBool (b : bool)
| VNum (literal : string)
| VStr (s : string)
| VArr (items : list value)
| VObj (fields : list (string * value)).

(** A thrown object, reduced to the two properties the [catch] block reads. *)
Record exn : Type := { name : string; message : string }.

(** [new Error(msg)] *)
Definition Error (msg : string) : exn := {| name := "Error"; message := msg |}.

(** The message of the [TypeError] raised by reading a property of [null] or
    [undefined]; the wording is the engine's. *)
Definition null_read_message (prop : string) : string :=
  "Cannot read properties of null (reading '" +:+ prop +:+ "')".

Definition TypeError (msg : string) : exn :=
  {| name := "TypeError"; message := msg |}.

(** Own property of a parsed object: the first binding of the key. *)
Fixpoint own_property (fields : list (string * value)) (key : string)
  : option value :=
  match fields with
  | [] => None
  | (k, v) :: rest => if String.eqb k key then Some v else own_property rest key
  end.

(** [v.key] for the keys the hook reads ([Response], [Search]), which no
    prototype defines: [None] stands for the [TypeError] on [null] and
    [undefined]; a missing property reads as [undefined]. *)
Definition get_property (v : value) (key : string) : option value :=
  match v with
  | VUndefined | VNull => None
  | VObj fields => Some (default VUndefined (own_property fields key))
  | _ => Some VUndefined
  end.

(** [v === s] for a string literal [s]. *)
Definition strict_eq_string (v : value) (s : string) : bool :=
  match v with
  | VStr t => String.eqb t s
  | _ => false
  end.

(** A number in a template literal: the decimal digits of a status code. *)
Definition decimal (n : N) : string := NilEmpty.string_of_uint (N.to_uint n).

(** [hay.includes(needle)] *)
Fixpoint includes (needle hay : string) : bool :=
  String.prefix needle hay ||
  match hay with
  | EmptyString => false
  | String _ rest => includes needle rest
  end.

(** ** The length of a string *)

(** A JavaScript string is held as the bytes of its UTF-8 encoding, the
    way a string literal of this file is read.  [s.length] counts UTF-16
    code units: one for a code point of one, two or three bytes, two for a
    code point of four bytes, which UTF-16 writes as a surrogate pair. *)
Inductive utf8_byte : Type :=
| Single          (* 0xxxxxxx *)
| Continuation    (* 10xxxxxx *)
| Lead            (* 110xxxxx and 1110xxxx: two and three bytes *)
| Lead4.          (* 11110xxx: four bytes *)

Definition classify (c : ascii) : utf8_byte :=
  match c with
  | Ascii _ _ _ _ b4 b5 b6 b7 =>
      if negb b7 then Single
      else if negb b6 then Continuation
      else if b5 && b4 then Lead4
      else Lead
  end.

(** The second code unit of a surrogate pair is counted at the byte that
    follows the lead of a four-byte sequence. *)
Fixpoint code_units (after_lead4 : bool) (s : string) : nat :=
  match s with
  | EmptyString => 0
  | String c rest =>
      match classify c with
      | Single | Lead => S (code_units false rest)
      | Lead4 => S (code_units true rest)
      | Continuation =>
          (if after_lead4 then 1 else 0) + code_units false rest
      end
  end.

(** [s.length] *)
Definition js_length (s : string) : nat := code_units false s.

(** ** The host: fetch, responses, controllers *)

(** What the hook reads of a [Response]: the status.  [res.ok] is the Fetch
    standard's getter, true for a status from 200 to 299. *)
Record response : Type := { status : N }.

Definition ok (res : response) : bool :=
  (200 <=? status res)%N && (status res <=? 299)%N.

(** How an awaited promise settles. *)
Inductive settled (A : Type) : Type :=
| Fulfilled (x : A)
| Rejected (e : exn).
Arguments Fulfilled {A} x.
Arguments Rejected {A} e.

(** A call of [fetch(url, { signal })]: no method is given, so it is a GET. *)
Record request : Type := { method : string; url : string; signal : nat }.

(** Where an invocation of [fetchMovies] stands. *)
Inductive phase : Type :=
| NotCalled      (* the effect returned at the length gate *)
| AwaitFetch     (* suspended at [await fetch(...)] *)
| AwaitJson      (* suspended at [await res.json()] *)
| Finished.      (* the promise of [fetchMovies] has settled *)

(** One run of the effect: its [AbortController] and its [fetchMovies]. *)
Record attempt : Type := { aborted : bool; stage : phase }.

(** An invocation is outstanding from its call to the settling of its
    promise. *)
Definition outstanding (p : phase) : bool :=
  match p with
  | AwaitFetch | AwaitJson => true
  | NotCalled | Finished => false
  end.

(** ** The hook's state *)

Record hook : Type := {
  movies : value;                (* useState([]) *)
  isLoading : bool;              (* useState(false) *)
  error : string;                (* useState("") *)
  query : option string;         (* the dependency of the last effect run *)
  cleanup : option nat;          (* the controller the returned cleanup aborts *)
  mounted : bool;
  controllers : list attempt;    (* one per effect run, in creation order *)
  network : list request;        (* the calls of fetch, oldest first *)
  console : list string;         (* the lines of console.log, oldest first *)
  unhandled : list exn           (* rejections of fetchMovies() nobody awaits *)
}.

(** The state of a consumer that has not rendered yet. *)
Definition initial : hook :=
  {| movies := VArr []; isLoading := false; error := ""; query := None;
     cleanup := None; mounted := true; controllers := []; network := [];
     console := []; unhandled := [] |}.

(** What the hook returns to its caller: [{ movies, isLoading, error }]. *)
Definition published (s : hook) : value * bool * string :=
  (movies s, isLoading s, error s).

Definition with_movies (v : value) (s : hook) : hook :=
  {| movies := v; isLoading := isLoading s; error := error s;
     query := query s; cleanup := cleanup s; mounted := mounted s;
     controllers := controllers s; network := network s;
     console := console s; unhandled := unhandled s |}.

Definition with_isLoading (b : bool) (s : hook) : hook :=
  {| movies := movies s; isLoading := b; error := error s;
     query := query s; cleanup := cleanup s; mounted := mounted s;
     controllers := controllers s; network := network s;
     console := console s; unhandled := unhandled s |}.

Definition with_error (e : string) (s : hook) : hook :=
  {| movies := movies s; isLoading := isLoading s; error := e;
     query := query s; cleanup := cleanup s; mounted := mounted s;
     controllers := controllers s; network := network s;
     console := console s; unhandled := unhandled s |}.

Definition with_effect (q : option string) (c : option nat) (s : hook) : hook :=
  {| movies := movies s; isLoading := isLoading s; error := error s;
     query := q; cleanup := c; mounted := mounted s;
     controllers := controllers s; network := network s;
     console := console s; unhandled := unhandled s |}.

Definition with_mounted (b : bool) (s : hook) : hook :=
  {| movies := movies s; isLoading := isLoading s; error := error s;
     query := query s; cleanup := cleanup s; mounted := b;
     controllers := controllers s; network := network s;
     console := console s; unhandled := unhandled s |}.

Definition with_controllers (l : list attempt) (s : hook) : hook :=
  {| movies := movies s; isLoading := isLoading s; error := error s;
     query := query s; cleanup := cleanup s; mounted := mounted s;
     controllers := l; network := network s;
     console := console s; unhandled := unhandled s |}.

Definition with_network (l : list request) (s : hook) : hook :=
  {| movies := movies s; isLoading := isLoading s; error := error s;
     query := query s; cleanup := cleanup s; mounted := mounted s;
     controllers := controllers s; network := l;
     console := console s; unhandled := unhandled s |}.

Definition with_console (l : list string) (s : hook) : hook :=
  {| movies := movies s; isLoading := isLoading s; error := error s;
     query := query s; cleanup := cleanup s; mounted := mounted s;
     controllers := controllers s; network := network s;
     console := l; unhandled := unhandled s |}.

Definition with_unhandled (l : list exn) (s : hook) : hook :=
  {| movies := movies s; isLoading := isLoading s; error := error s;
     query := query s; cleanup := cleanup s; mounted := mounted s;
     controllers := controllers s; network := network s;
     console := console s; unhandled := l |}.

(** ** Synchronous code: state and exceptions *)

Inductive completion (A : Type) : Type :=
| Normal (x : A)
| Throw (e : exn).
Arguments Normal {A} x.
Arguments Throw {A} e.

Definition M (A : Type) : Type := hook -> completion A * hook.

Definition ret {A} (x : A) : M A := fun s => (Normal x, s).

Definition bind {A B} (m : M A) (k : A -> M B) : M B :=
  fun s =>
    match m s with
    | (Normal x, s') => k x s'
    | (Throw e, s') => (Throw e, s')
    end.

Definition throw {A} (e : exn) : M A := fun s => (Throw e, s).

Declare Scope js_scope.
Delimit Scope js_scope with js.
Notation "x <- m ;; k" := (bind m (fun x => k))
  (at level 100, m at next level, k at level 200, right associativity)
  : js_scope.
Notation "m ;; k" := (bind m (fun _ => k))
  (at level 100, k at level 200, right associativity) : js_scope.
Local Open Scope js_scope.

Definition setMovies (v : value) : M unit :=
  fun s => (Normal tt, with_movies v s).

Definition setIsLoading (b : bool) : M unit :=
  fun s => (Normal tt, with_isLoading b s).

Definition setError (e : string) : M unit :=
  fun s => (Normal tt, with_error e s).

Definition console_log (line : string) : M unit :=
  fun s => (Normal tt, with_console (console s ++ [line]) s).

(** [new AbortController()]: a fresh signal, not aborted. *)
Definition new_AbortController : M nat :=
  fun s =>
    (Normal (length (controllers s)),
     with_controllers
       (controllers s ++ [{| aborted := false; stage := NotCalled |}]) s).

(** [controller.abort()] *)
Definition abort (controller : nat) : M unit :=
  fun s =>
    (Normal tt,
     match controllers s !! controller with
     | Some a =>
         with_controllers
           (<[controller := {| aborted := true; stage := stage a |}]>
              (controllers s)) s
     | None => s
     end).

(** [fetch(url, { signal: controller.signal })]: the call goes out, the
    promise stays pending until the host settles it. *)
Definition fetch (target : string) (controller : nat) : M unit :=
  fun s =>
    (Normal tt,
     with_network
       (network s ++
          [{| method := "GET"; url := target; signal := controller |}]) s).

(** [await p] once the host has settled [p]. *)
Definition await {A} (p : settled A) : M A :=
  match p with
  | Fulfilled x => ret x
  | Rejected e => throw e
  end.

(** [v.key] as a computation. *)
Definition read (v : value) (key : string) : M value :=
  match get_property v key with
  | Some x => ret x
  | None => throw (TypeError (null_read_message key))
  end.

(** ** The source, segment by segment *)

Definition KEY : string := "b0237cb1".

(** The template literal handed to [fetch]: the query is spliced in as is. *)
Definition request_url (query : string) : string :=
  "http://www.omdbapi.com/?apikey=" +:+ KEY +:+ "&&s=" +:+ query.

Definition http_error_message (res : response) : string :=
  "Something wrong with fetching movies. HTTP error status: "
  +:+ decimal (status res).

(** How a segment of the [try] block ends: by running off its end, or by
    suspending at an [await]. *)
Inductive control : Type :=
| Return
| Suspend (at_ : phase).

(** The [try] block up to [await fetch(...)]. *)
Definition try_until_fetch (query : string) (controller : nat) : M control :=
  setIsLoading true ;;
  setError "" ;;
  fetch (request_url query) controller ;;
  ret (Suspend AwaitFetch).

(** The [try] block from the settled [fetch] up to [await res.json()]. *)
Definition try_after_fetch (p : settled response) : M control :=
  res <- await p ;;
  if negb (ok res) then throw (Error (http_error_message res))
  else ret (Suspend AwaitJson).

(** The [try] block from the settled [res.json()] to its end. *)
Definition try_after_json (p : settled value) : M control :=
  data <- await p ;;
  answer <- read data "Response" ;;
  if strict_eq_string answer "False" then throw (Error "Movie not found!")
  else
    found <- read data "Search" ;;
    setMovies found ;;
    setError "" ;;
    ret Return.

(** The [catch] block. *)
Definition catch_block (error : exn) : M unit :=
  if negb (String.eqb (name error) "AbortError") then
    console_log (message error) ;;
    setError (message error)
  else ret tt.

(** The [finally] block. *)
Definition finally_block : M unit := setIsLoading false.

(** [try { body } catch (error) { ... } finally { ... }] around one segment:
    a segment that suspends leaves both handlers for its resumption. *)
Definition try_catch_finally (body : M control) : M control :=
  fun s =>
    match body s with
    | (Normal (Suspend p), s1) => (Normal (Suspend p), s1)
    | (Normal Return, s1) => (finally_block ;; ret Return) s1
    | (Throw e, s1) =>
        match catch_block e s1 with
        | (Normal _, s2) => (finally_block ;; ret Return) s2
        | (Throw e', s2) => (finally_block ;; throw e') s2
        end
    end.

Definition set_stage (controller : nat) (p : phase) (s : hook) : hook :=
  match controllers s !! controller with
  | Some a =>
      with_controllers
        (<[controller := {| aborted := aborted a; stage := p |}]>
           (controllers s)) s
  | None => s
  end.

(** One segment of [fetchMovies] run by the event loop: the invocation
    suspends again, or its promise settles; a rejection has no handler. *)
Definition fetchMovies (controller : nat) (segment : M control) (s : hook)
  : hook :=
  match try_catch_finally segment s with
  | (Normal (Suspend p), s') => set_stage controller p s'
  | (Normal Return, s') => set_stage controller Finished s'
  | (Throw e, s') =>
      set_stage controller Finished (with_unhandled (unhandled s' ++ [e]) s')
  end.

(** The body of [useEffect]: its result is the cleanup it returns, named by
    the controller that cleanup aborts. *)
Definition effect (query : string) : M (option nat) :=
  controller <- new_AbortController ;;
  if (js_length query <? 3)%nat then
    setMovies (VArr []) ;;
    setError "" ;;
    ret None
  else
    (fun s => (Normal tt, fetchMovies controller
                            (try_until_fetch query controller) s)) ;;
    ret (Some controller).

(** The cleanup of the previous effect run, if it returned one. *)
Definition run_cleanup (s : hook) : hook :=
  match cleanup s with
  | Some controller => snd (abort controller s)
  | None => s
  end.

(** ** The event loop *)

Inductive event : Type :=
| Render (query : string)                       (* the caller renders with a query *)
| Detach                                        (* the consumer unmounts *)
| FetchSettled (controller : nat) (p : settled response)
| JsonSettled (controller : nat) (p : settled value).

(** React runs the effect for a query: first the cleanup the previous run
    returned, then the effect body, whose result it keeps as the next
    cleanup. *)
Definition commit (q : string) (s : hook) : hook :=
  match effect q (run_cleanup s) with
  | (Normal c, s') => with_effect (Some q) c s'
  | (Throw e, s') =>
      with_effect (Some q) None (with_unhandled (unhandled s' ++ [e]) s')
  end.

(** A render: with the dependency [query] unchanged React skips the effect. *)
Definition render (q : string) (s : hook) : hook :=
  if decide (query s = Some q) then s else commit q s.

Definition detach (s : hook) : hook :=
  with_mounted false (with_effect (query s) None (run_cleanup s)).

Definition stage_of (s : hook) (controller : nat) : option phase :=
  stage <$> controllers s !! controller.

(** [None]: the event cannot happen in this state. *)
Definition step (s : hook) (ev : event) : option hook :=
  match ev with
  | Render q => if mounted s then Some (render q s) else None
  | Detach => if mounted s then Some (detach s) else None
  | FetchSettled c p =>
      match stage_of s c with
      | Some AwaitFetch => Some (fetchMovies c (try_after_fetch p) s)
      | _ => None
      end
  | JsonSettled c p =>
      match stage_of s c with
      | Some AwaitJson => Some (fetchMovies c (try_after_json p) s)
      | _ => None
      end
  end.

Fixpoint run (s : hook) (trace : list event) : option hook :=
  match trace with
  | [] => Some s
  | ev :: rest =>
      match step s ev with
      | Some s' => run s' rest
      | None => None
      end
  end.

Inductive reachable : hook -> Prop :=
| reachable_initial : reachable initial
| reachable_step s ev s' : reachable s -> step s ev = Some s' -> reachable s'.

(** ** The host's answer to one request *)

(** What the network does with a request, start to end: it fails, or it
    answers with a status and a body that parses or does not. *)
Inductive reply : Type :=
| NetworkFailure (e : exn)
| Answer (res : response) (body : settled value).

(** The events by which the host delivers a reply to an invocation: the body
    is read only when the hook asks for it. *)
Definition deliver (controller : nat) (r : reply) : list event :=
  match r with
  | NetworkFailure e => [FetchSettled controller (Rejected e)]
  | Answer res body =>
      if ok res then
        [FetchSettled controller (Fulfilled res); JsonSettled controller body]
      else [FetchSettled controller (Fulfilled res)]
  end.

(** ** Reading a request URL *)

(** The spec's notion of the URL-encoded form of a query, as
    [encodeURIComponent] computes it character by character.  The source
    calls no such function; this definition is here to be compared with
    [request_url]. *)
Definition unreserved (c : ascii) : bool :=
  let n := nat_of_ascii c in
  ((65 <=? n) && (n <=? 90) || (97 <=? n) && (n <=? 122)
   || (48 <=? n) && (n <=? 57))%nat
  || includes (String c "") "-_.!~*'()".

Definition hex_digit (n : nat) : ascii :=
  match String.get n "0123456789ABCDEF" with
  | Some c => c
  | None => "0"%char
  end.

Definition percent_encoded (c : ascii) : string :=
  let n := nat_of_ascii c in
  String "%" (String (hex_digit (n / 16)) (String (hex_digit (n mod 16)) "")).

Fixpoint urlencoded (s : string) : string :=
  match s with
  | EmptyString => ""
  | String c rest =>
      (if unreserved c then String c "" else percent_encoded c)
      +:+ urlencoded rest
  end.

Fixpoint all_unreserved (s : string) : bool :=
  match s with
  | EmptyString => true
  | String c rest => unreserved c && all_unreserved rest
  end.

(** ** What a reply comes to *)

(** The published triple once a segment of the [try] block has thrown. *)
Definition failed (e : exn) (t : value * bool * string)
  : value * bool * string :=
  let '(m, _, err) := t in
  (m, false, if String.eqb (name e) "AbortError" then err else message e).

(** The exception a reply makes the [try] block throw, if any. *)
Definition raises (r : reply) : option exn :=
  match r with
  | NetworkFailure e => Some e
  | Answer res body =>
      if ok res then
        match body with
        | Rejected e => Some e
        | Fulfilled data =>
            match get_property data "Response" with
            | None => Some (TypeError (null_read_message "Response"))
            | Some answer =>
                if strict_eq_string answer "False"
                then Some (Error "Movie not found!") else None
            end
        end
      else Some (Error (http_error_message res))
  end.

(** The published triple after an invocation has consumed its reply. *)
Definition outcome (r : reply) (t : value * bool * string)
  : value * bool * string :=
  match raises r, r with
  | Some e, _ => failed e t
  | None, Answer _ (Fulfilled data) =>
      (default VUndefined (get_property data "Search"), false, "")
  | None, _ => t
  end.

(** The state once [catch] and [finally] have dealt with an exception. *)
Definition caught (e : exn) (s : hook) : hook :=
  with_isLoading false
    (if String.eqb (name e) "AbortError" then s
     else with_error (message e) (with_console (console s ++ [message e]) s)).

(** The console once an invocation has consumed its reply. *)
Definition logged (r : reply) (lines : list string) : list string :=
  match raises r with
  | Some e =>
      if String.eqb (name e) "AbortError" then lines else lines ++ [message e]
  | None => lines
  end.

(** What the settling of a promise never touches. *)
Definition same_host (s s' : hook) : Prop :=
  query s' = query s /\ cleanup s' = cleanup s /\ mounted s' = mounted s /\
  network s' = network s /\ unhandled s' = unhandled s /\
  length (controllers s') = length (controllers s).

(** The state once the [try] block has run to its end with [data.Search]
    and [finally] has followed. *)
Definition stored (found : value) (s : hook) : hook :=
  with_isLoading false (with_error "" (with_movies found s)).

(** Invocation [c] has consumed reply [r] between [s] and [s']. *)
Definition consumed (c : nat) (r : reply) (s s' : hook) : Prop :=
  published s' = outcome r (published s) /\
  console s' = logged r (console s) /\
  stage_of s' c = Some Finished /\
  (forall c', c' <> c -> stage_of s' c' = stage_of s c') /\
  same_host s s'.

(** The exception an event makes the resumed [try] block throw, if any. *)
Definition thrown (s : hook) (ev : event) : option exn :=
  match ev with
  | FetchSettled _ p =>
      match try_after_fetch p s with
      | (Throw e, _) => Some e
      | _ => None
      end
  | JsonSettled _ p =>
      match try_after_json p s with
      | (Throw e, _) => Some e
      | _ => None
      end
  | Render _ | Detach => None
  end.

(** The event settles a promise that invocation [c] awaits. *)
Definition settles (c : nat) (ev : event) : bool :=
  match ev with
  | FetchSettled c' _ | JsonSettled c' _ => bool_decide (c' = c)
  | Render _ | Detach => false
  end.

(** Some invocation of [fetchMovies] is suspended. *)
Definition some_outstanding (s : hook) : Prop :=
  exists c p, stage_of s c = Some p /\ outstanding p = true.

(** The parsed body has an own property of that name. *)
Definition has_field (data : value) (key : string) : bool :=
  match data with
  | VObj fields => bool_decide (is_Some (own_property fields key))
  | _ => false
  end.

(** The replies a well-behaved transport gives to an aborted request: the
    pending promise rejects with an exception named [AbortError]. *)
Definition AbortError (msg : string) : exn :=
  {| name := "AbortError"; message := msg |}.

Definition fresh_attempt : attempt := {| aborted := false; stage := NotCalled |}.

(** The events of one query issued and answered: the effect runs, and where
    it called [fetchMovies] the host delivers the reply. *)
Definition answered (q : string) (controller : nat) (r : reply) : list event :=
  if (js_length q <? 3)%nat then [] else deliver controller r.

(** ** Controllers and requests, for the invariants *)

(** [fetchMovies] has been called in this run of the effect. *)
Definition called (p : phase) : bool :=
  match p with
  | NotCalled => false
  | AwaitFetch | AwaitJson | Finished => true
  end.

(** [controller.signal.aborted] *)
Definition aborted_of (s : hook) (controller : nat) : option bool :=
  aborted <$> controllers s !! controller.

(** The calls of [fetch] that carry the signal of one controller. *)
Definition requests_for (controller : nat) (s : hook) : list request :=
  filter (fun r => signal r = controller) (network s).

(** The request of an effect that passed the length gate. *)
Definition gated_request (s : hook) (r : request) : Prop :=
  method r = "GET" /\
  signal r < length (controllers s) /\
  exists q, 3 <= js_length q /\ 3 <= String.length q /\
            url r = request_url q.

(** A controller whose [fetchMovies] was called and whose signal is not
    aborted: its request is, or was, a live one. *)
Definition live (s : hook) (c : nat) : Prop :=
  aborted_of s c = Some false /\
  exists p, stage_of s c = Some p /\ called p = true.

(** What every step keeps of controllers and cleanup. *)
Definition live_invariant (s : hook) : Prop :=
  (forall c, live s c <-> cleanup s = Some c) /\
  (forall c, stage_of s c = Some NotCalled -> aborted_of s c = Some false).

(** One request for each called controller, none for a gated one, and
    every request the GET of a query that passes the gate. *)
Definition requests_accounted (s : hook) : Prop :=
  Forall (gated_request s) (network s) /\
  forall c p, stage_of s c = Some p ->
    length (requests_for c s) = if called p then 1 else 0.

(** A shown error is the last line on the console. *)
Definition error_logged (s : hook) : Prop :=
  error s = "" \/ last (console s) = Some (error s).

(** The effect run, cleaned up and run again for the same query, with the
    first request still out: what [React.StrictMode] does on mount. *)
Definition remount (q : string) (s : hook) : hook := commit q (commit q s).

(** ** Examples *)

Definition bat_body : value :=
  VObj [("Search", VArr [VObj [("Title", VStr "Batman")]]);
        ("Response", VStr "True")].

Definition sup_body : value :=
  VObj [("Search", VArr [VObj [("Title", VStr "Superman")]]);
        ("Response", VStr "True")].

(** The hook right after its first render with ["bat"]: the request is out,
    nothing has come back. *)
Definition bat_pending : hook := commit "bat" initial.

(** Then the query became ["sup"]: the first controller is aborted, a second
    request is out. *)
Definition sup_pending : hook := commit "sup" bat_pending.

Definition ok_200 : response := {| status := 200 |}.
Definition not_found_404 : response := {| status := 404 |}.

(** The first request answered with a 404. *)
Definition bat_failed : hook :=
  fetchMovies 0 (try_after_fetch (Fulfilled not_found_404)) bat_pending.

Example js_length_examples :
  js_length "bat" = 3 /\ js_length "su" = 2 /\ js_length "éé" = 2 /\
  js_length "日本語" = 3 /\ js_length "😀" = 2 /\ js_length "😀a" = 3.
Proof. repeat split. Qed.

(** Two accented letters are four bytes but a [length] of two: the effect
    stops at the gate and sends nothing. *)
Example gate_counts_code_units :
  (s' ← step initial (Render "éé");
   Some (network s', stage_of s' 0, movies s'))
  = Some ([], Some NotCalled, VArr []).
Proof. reflexivity. Qed.

Example search_bat :
  published <$> run initial (Render "bat" :: deliver 0 (Answer {| status := 200 |} (Fulfilled bat_body)))
  = Some (VArr [VObj [("Title", VStr "Batman")]], false, "").
Proof. reflexivity. Qed.

Example search_404 :
  published <$> run initial (Render "bat" :: deliver 0 (Answer {| status := 404 |} (Fulfilled VNull)))
  = Some (VArr [], false,
          "Something wrong with fetching movies. HTTP error status: 404").
Proof. reflexivity. Qed.

Example url_bat : request_url "bat" = "http://www.omdbapi.com/?apikey=b0237cb1&&s=bat".
Proof. reflexivity. Qed.

Example urlencoded_amp : urlencoded "tom&jerry a" = "tom%26jerry%20a".
Proof. reflexivity. Qed.

(** ** Bookkeeping: what a segment leaves alone *)

Lemma set_stage_fields c p s :
  movies (set_stage c p s) = movies s /\
  isLoading (set_stage c p s) = isLoading s /\
  error (set_stage c p s) = error s /\
  query (set_stage c p s) = query s /\
  cleanup (set_stage c p s) = cleanup s /\
  mounted (set_stage c p s) = mounted s /\
  network (set_stage c p s) = network s /\
  console (set_stage c p s) = console s /\
  unhandled (set_stage c p s) = unhandled s.
Proof. unfold set_stage. destruct (controllers s !! c); repeat split. Qed.

Lemma set_stage_published c p s :
  published (set_stage c p s) = published s.
Proof. unfold set_stage. now destruct (controllers s !! c). Qed.

Lemma set_stage_length c p s :
  length (controllers (set_stage c p s)) = length (controllers s).
Proof.
  unfold set_stage. destruct (controllers s !! c); [|done].
  cbn. apply length_insert.
Qed.

Lemma stage_of_set_stage_eq c p s q :
  stage_of s c = Some q -> stage_of (set_stage c p s) c = Some p.
Proof.
  unfold stage_of, set_stage. intros H.
  destruct (controllers s !! c) as [a|] eqn:E; [|discriminate].
  cbn. rewrite list_lookup_insert_eq; [done|].
  eapply lookup_lt_Some; eauto.
Qed.

Lemma stage_of_set_stage_ne c c' p s :
  c <> c' -> stage_of (set_stage c p s) c' = stage_of s c'.
Proof.
  unfold stage_of, set_stage. intros H.
  destruct (controllers s !! c) as [a|]; [|done].
  cbn. now rewrite list_lookup_insert_ne.
Qed.

Lemma run_cleanup_fields s :
  published (run_cleanup s) = published s /\
  query (run_cleanup s) = query s /\
  mounted (run_cleanup s) = mounted s /\
  network (run_cleanup s) = network s /\
  console (run_cleanup s) = console s /\
  unhandled (run_cleanup s) = unhandled s /\
  length (controllers (run_cleanup s)) = length (controllers s).
Proof.
  unfold run_cleanup, abort.
  destruct (cleanup s) as [c|]; [|done]. cbn.
  destruct (controllers s !! c); [|done]. cbn.
  repeat split. apply length_insert.
Qed.

Lemma run_cleanup_stage s c : stage_of (run_cleanup s) c = stage_of s c.
Proof.
  unfold run_cleanup, abort, stage_of.
  destruct (cleanup s) as [k|]; [|done]. cbn.
  destruct (controllers s !! k) as [a|] eqn:E; [|done]. cbn.
  destruct (decide (k = c)) as [->|Hne].
  - rewrite list_lookup_insert_eq by (eapply lookup_lt_Some; eauto).
    now rewrite E.
  - now rewrite list_lookup_insert_ne.
Qed.

(** ** The ways a render goes *)

Lemma render_unchanged s q : query s = Some q -> render q s = s.
Proof. intros H. unfold render. now rewrite decide_True. Qed.

Lemma render_changed s q : query s <> Some q -> render q s = commit q s.
Proof. intros H. unfold render. now rewrite decide_False. Qed.

Lemma commit_gate s q :
  js_length q < 3 ->
  commit q s =
    with_effect (Some q) None
      (with_error ""
         (with_movies (VArr [])
            (with_controllers (controllers (run_cleanup s) ++ [fresh_attempt])
               (run_cleanup s)))).
Proof.
  intros Hlen. unfold commit, effect, bind, new_AbortController.
  destruct (Nat.ltb_spec (js_length q) 3) as [_|?]; [|lia].
  reflexivity.
Qed.

Lemma commit_fetch s q :
  3 <= js_length q ->
  commit q s =
    let n := length (controllers (run_cleanup s)) in
    with_effect (Some q) (Some n)
      (with_network
         (network (run_cleanup s) ++
            [{| method := "GET"; url := request_url q; signal := n |}])
         (with_error ""
            (with_isLoading true
               (with_controllers
                  (controllers (run_cleanup s) ++
                     [{| aborted := false; stage := AwaitFetch |}])
                  (run_cleanup s))))).
Proof.
  intros Hlen. unfold commit, effect, bind, new_AbortController.
  destruct (Nat.ltb_spec (js_length q) 3) as [?|_]; [lia|].
  cbn. unfold set_stage. cbn.
  rewrite lookup_app_r by lia. rewrite Nat.sub_diag. cbn.
  rewrite insert_app_r_alt by lia. rewrite Nat.sub_diag. reflexivity.
Qed.

(** What the effect leaves of the earlier invocations, and where it puts
    its own. *)
Lemma commit_stage_old s q c :
  c < length (controllers s) -> stage_of (commit q s) c = stage_of s c.
Proof.
  intros Hc. rewrite <- (run_cleanup_stage s c).
  destruct (run_cleanup_fields s) as (_ & _ & _ & _ & _ & _ & Hlen).
  destruct (le_lt_dec 3 (js_length q)) as [H|H].
  - rewrite commit_fetch by done. unfold stage_of. cbn.
    now rewrite lookup_app_l by lia.
  - rewrite commit_gate by done. unfold stage_of. cbn.
    now rewrite lookup_app_l by lia.
Qed.

Lemma commit_stage_new s q :
  stage_of (commit q s) (length (controllers s)) =
    Some (if (js_length q <? 3)%nat then NotCalled else AwaitFetch).
Proof.
  destruct (run_cleanup_fields s) as (_ & _ & _ & _ & _ & _ & Hlen).
  destruct (Nat.ltb_spec (js_length q) 3) as [H|H].
  - rewrite commit_gate by done. unfold stage_of. cbn.
    rewrite lookup_app_r by lia. now replace (_ - _) with 0 by lia.
  - rewrite commit_fetch by done. unfold stage_of. cbn.
    rewrite lookup_app_r by lia. now replace (_ - _) with 0 by lia.
Qed.

Lemma commit_length s q :
  length (controllers (commit q s)) = S (length (controllers s)).
Proof.
  destruct (run_cleanup_fields s) as (_ & _ & _ & _ & _ & _ & Hlen).
  destruct (le_lt_dec 3 (js_length q)) as [H|H].
  - rewrite commit_fetch by done. cbn. rewrite length_app. cbn. lia.
  - rewrite commit_gate by done. cbn. rewrite length_app. cbn. lia.
Qed.

Lemma commit_published s q :
  published (commit q s) =
    if (js_length q <? 3)%nat then (VArr [], isLoading s, "")
    else (movies s, true, "").
Proof.
  destruct (run_cleanup_fields s) as (Hp & _).
  injection Hp as Hm Hl He.
  destruct (Nat.ltb_spec (js_length q) 3) as [H|H].
  - rewrite commit_gate by done. unfold published. cbn. now rewrite Hl.
  - rewrite commit_fetch by done. unfold published. cbn. now rewrite Hm.
Qed.

(** ** The ways a segment of fetchMovies ends *)

Lemma fetchMovies_suspend c segment s p s1 :
  segment s = (Normal (Suspend p), s1) ->
  fetchMovies c segment s = set_stage c p s1.
Proof. intros H. unfold fetchMovies, try_catch_finally. now rewrite H. Qed.

Lemma fetchMovies_return c segment s s1 :
  segment s = (Normal Return, s1) ->
  fetchMovies c segment s = set_stage c Finished (with_isLoading false s1).
Proof. intros H. unfold fetchMovies, try_catch_finally. now rewrite H. Qed.

Lemma fetchMovies_throw c segment s e s1 :
  segment s = (Throw e, s1) ->
  fetchMovies c segment s = set_stage c Finished (caught e s1).
Proof.
  intros H. unfold fetchMovies, try_catch_finally, catch_block, caught.
  rewrite H. now destruct (String.eqb (name e) "AbortError").
Qed.

Lemma try_after_fetch_cases p s :
  try_after_fetch p s =
    match p with
    | Rejected e => (Throw e, s)
    | Fulfilled res =>
        if ok res then (Normal (Suspend AwaitJson), s)
        else (Throw (Error (http_error_message res)), s)
    end.
Proof.
  destruct p as [res|e]; [|done].
  unfold try_after_fetch, bind. cbn. now destruct (ok res).
Qed.

Lemma try_after_json_cases p s :
  try_after_json p s =
    match p with
    | Rejected e => (Throw e, s)
    | Fulfilled data =>
        match get_property data "Response" with
        | None => (Throw (TypeError (null_read_message "Response")), s)
        | Some answer =>
            if strict_eq_string answer "False"
            then (Throw (Error "Movie not found!"), s)
            else (Normal Return,
                  with_error ""
                    (with_movies
                       (default VUndefined (get_property data "Search")) s))
        end
    end.
Proof.
  destruct p as [data|e]; [|done].
  unfold try_after_json, bind, read. cbn.
  destruct data; cbn; try done;
    match goal with
    | |- context [strict_eq_string ?a ?b] => now destruct (strict_eq_string a b)
    end.
Qed.

Lemma strict_eq_string_true v s : strict_eq_string v s = true <-> v = VStr s.
Proof.
  destruct v; cbn; try (split; congruence).
  rewrite String.eqb_eq. split; congruence.
Qed.

(** ** One settled promise at a time *)

Lemma after_fetch_state c p s :
  fetchMovies c (try_after_fetch p) s =
    match p with
    | Rejected e => set_stage c Finished (caught e s)
    | Fulfilled res =>
        if ok res then set_stage c AwaitJson s
        else set_stage c Finished (caught (Error (http_error_message res)) s)
    end.
Proof.
  destruct p as [res|e]; [destruct (ok res) eqn:Hok|].
  - apply fetchMovies_suspend. rewrite try_after_fetch_cases. now rewrite Hok.
  - apply fetchMovies_throw. rewrite try_after_fetch_cases. now rewrite Hok.
  - apply fetchMovies_throw. now rewrite try_after_fetch_cases.
Qed.

Lemma after_json_state c p s :
  fetchMovies c (try_after_json p) s =
    match p with
    | Rejected e => set_stage c Finished (caught e s)
    | Fulfilled data =>
        match get_property data "Response" with
        | None =>
            set_stage c Finished
              (caught (TypeError (null_read_message "Response")) s)
        | Some answer =>
            if strict_eq_string answer "False"
            then set_stage c Finished (caught (Error "Movie not found!") s)
            else set_stage c Finished
                   (stored (default VUndefined (get_property data "Search")) s)
        end
    end.
Proof.
  destruct p as [data|e].
  - destruct (get_property data "Response") as [answer|] eqn:Hd;
      [destruct (strict_eq_string answer "False") eqn:Ha|].
    + apply fetchMovies_throw. rewrite try_after_json_cases, Hd. now rewrite Ha.
    + apply fetchMovies_return. rewrite try_after_json_cases, Hd. now rewrite Ha.
    + apply fetchMovies_throw. rewrite try_after_json_cases. now rewrite Hd.
  - apply fetchMovies_throw. now rewrite try_after_json_cases.
Qed.

Lemma step_fetch_rejected s c e :
  stage_of s c = Some AwaitFetch ->
  step s (FetchSettled c (Rejected e)) = Some (set_stage c Finished (caught e s)).
Proof.
  intros H. cbn. rewrite H. f_equal.
  apply fetchMovies_throw. now rewrite try_after_fetch_cases.
Qed.

Lemma step_fetch_not_ok s c res :
  stage_of s c = Some AwaitFetch -> ok res = false ->
  step s (FetchSettled c (Fulfilled res)) =
    Some (set_stage c Finished (caught (Error (http_error_message res)) s)).
Proof.
  intros H Hok. cbn. rewrite H. f_equal.
  apply fetchMovies_throw. rewrite try_after_fetch_cases. now rewrite Hok.
Qed.

Lemma step_fetch_ok s c res :
  stage_of s c = Some AwaitFetch -> ok res = true ->
  step s (FetchSettled c (Fulfilled res)) = Some (set_stage c AwaitJson s).
Proof.
  intros H Hok. cbn. rewrite H. f_equal.
  apply fetchMovies_suspend. rewrite try_after_fetch_cases. now rewrite Hok.
Qed.

Lemma step_json_rejected s c e :
  stage_of s c = Some AwaitJson ->
  step s (JsonSettled c (Rejected e)) = Some (set_stage c Finished (caught e s)).
Proof.
  intros H. cbn. rewrite H. f_equal.
  apply fetchMovies_throw. now rewrite try_after_json_cases.
Qed.

Lemma step_json_unreadable s c data :
  stage_of s c = Some AwaitJson -> get_property data "Response" = None ->
  step s (JsonSettled c (Fulfilled data)) =
    Some (set_stage c Finished
            (caught (TypeError (null_read_message "Response")) s)).
Proof.
  intros H Hd. cbn. rewrite H. f_equal.
  apply fetchMovies_throw. rewrite try_after_json_cases. now rewrite Hd.
Qed.

Lemma step_json_not_found s c data :
  stage_of s c = Some AwaitJson ->
  get_property data "Response" = Some (VStr "False") ->
  step s (JsonSettled c (Fulfilled data)) =
    Some (set_stage c Finished (caught (Error "Movie not found!") s)).
Proof.
  intros H Hd. cbn. rewrite H. f_equal.
  apply fetchMovies_throw. rewrite try_after_json_cases. now rewrite Hd.
Qed.

Lemma step_json_found s c data answer :
  stage_of s c = Some AwaitJson ->
  get_property data "Response" = Some answer ->
  strict_eq_string answer "False" = false ->
  step s (JsonSettled c (Fulfilled data)) =
    Some (set_stage c Finished
            (stored (default VUndefined (get_property data "Search")) s)).
Proof.
  intros H Hd Hne. cbn. rewrite H. f_equal.
  apply fetchMovies_return. rewrite try_after_json_cases, Hd. now rewrite Hne.
Qed.

Lemma caught_published e s : published (caught e s) = failed e (published s).
Proof.
  unfold caught, failed, published.
  now destruct (String.eqb (name e) "AbortError").
Qed.

Lemma caught_console e s :
  console (caught e s) =
    if String.eqb (name e) "AbortError" then console s
    else (console s ++ [message e])%list.
Proof. unfold caught. now destruct (String.eqb (name e) "AbortError"). Qed.

Lemma caught_same_host e s : same_host s (caught e s).
Proof.
  unfold caught, same_host.
  now destruct (String.eqb (name e) "AbortError").
Qed.

Lemma caught_stage e s c : stage_of (caught e s) c = stage_of s c.
Proof. unfold caught. now destruct (String.eqb (name e) "AbortError"). Qed.

Lemma set_stage_same_host c p s : same_host s (set_stage c p s).
Proof.
  unfold same_host. destruct (set_stage_fields c p s) as (_&_&_&?&?&?&?&_&?).
  rewrite set_stage_length. tauto.
Qed.

Lemma same_host_trans s1 s2 s3 :
  same_host s1 s2 -> same_host s2 s3 -> same_host s1 s3.
Proof. unfold same_host. intuition congruence. Qed.

Lemma set_stage_console c p s : console (set_stage c p s) = console s.
Proof. apply set_stage_fields. Qed.

(** ** A whole reply *)

Lemma finishing c p s s2 :
  stage_of s c = Some p ->
  (forall c', stage_of s2 c' = stage_of s c') ->
  same_host s s2 ->
  stage_of (set_stage c Finished s2) c = Some Finished /\
  (forall c', c' <> c -> stage_of (set_stage c Finished s2) c' = stage_of s c') /\
  same_host s (set_stage c Finished s2).
Proof.
  intros H Hs Hh. split_and!.
  - eapply stage_of_set_stage_eq. rewrite Hs. eauto.
  - intros c' Hne. now rewrite stage_of_set_stage_ne.
  - eapply same_host_trans; [apply Hh | apply set_stage_same_host].
Qed.

Lemma finished_by_catch c e s p :
  stage_of s c = Some p ->
  published (set_stage c Finished (caught e s)) = failed e (published s) /\
  console (set_stage c Finished (caught e s)) =
    (if String.eqb (name e) "AbortError" then console s
     else (console s ++ [message e])%list) /\
  stage_of (set_stage c Finished (caught e s)) c = Some Finished /\
  (forall c', c' <> c ->
     stage_of (set_stage c Finished (caught e s)) c' = stage_of s c') /\
  same_host s (set_stage c Finished (caught e s)).
Proof.
  intros H.
  destruct (finishing c p s (caught e s) H (caught_stage e s)
              (caught_same_host e s)) as (?&?&?).
  split_and!; try done.
  - now rewrite set_stage_published, caught_published.
  - now rewrite set_stage_console, caught_console.
Qed.

Lemma finished_by_return c found s p :
  stage_of s c = Some p ->
  published (set_stage c Finished (stored found s)) = (found, false, "") /\
  console (set_stage c Finished (stored found s)) = console s /\
  stage_of (set_stage c Finished (stored found s)) c = Some Finished /\
  (forall c', c' <> c ->
     stage_of (set_stage c Finished (stored found s)) c' = stage_of s c') /\
  same_host s (set_stage c Finished (stored found s)).
Proof.
  intros H.
  assert (Hh : same_host s (stored found s)) by (unfold same_host; now cbn).
  destruct (finishing c p s (stored found s) H (fun _ => eq_refl) Hh) as (?&?&?).
  split_and!; try done.
  - now rewrite set_stage_published.
  - now rewrite set_stage_console.
Qed.

Lemma deliver_run s c r :
  stage_of s c = Some AwaitFetch ->
  exists s', run s (deliver c r) = Some s' /\ consumed c r s s'.
Proof.
  intros H. destruct r as [e|res body]; cbn [deliver].
  - cbn [run]. rewrite step_fetch_rejected by done.
    eexists; split; [reflexivity|]. eapply finished_by_catch; eauto.
  - destruct (ok res) eqn:Hok.
    + cbn [run]. rewrite step_fetch_ok by done.
      set (s1 := set_stage c AwaitJson s).
      assert (H1 : stage_of s1 c = Some AwaitJson)
        by (eapply stage_of_set_stage_eq; eauto).
      assert (Hp : published s1 = published s) by apply set_stage_published.
      assert (Hc : console s1 = console s) by apply set_stage_console.
      assert (Hs : forall c', c' <> c -> stage_of s1 c' = stage_of s c')
        by (intros; now apply stage_of_set_stage_ne).
      assert (Hh : same_host s s1) by apply set_stage_same_host.
      unfold consumed, outcome, logged. cbn [raises]. rewrite Hok.
      rewrite <- Hp, <- Hc.
      destruct body as [data|e].
      * destruct (get_property data "Response") as [answer|] eqn:Hd.
        -- destruct (strict_eq_string answer "False") eqn:Ha.
           ++ apply strict_eq_string_true in Ha. subst answer.
              rewrite step_json_not_found by done.
              eexists; split; [reflexivity|].
              destruct (finished_by_catch c (Error "Movie not found!") s1 _ H1)
                as (?&?&?&?&?).
              split_and!; try done.
              ** intros c' Hne. rewrite <- Hs by done. auto.
              ** eapply same_host_trans; eauto.
           ++ erewrite step_json_found by eauto.
              eexists; split; [reflexivity|].
              destruct (finished_by_return c
                          (default VUndefined (get_property data "Search"))
                          s1 _ H1) as (?&?&?&?&?).
              split_and!; try done.
              ** intros c' Hne. rewrite <- Hs by done. auto.
              ** eapply same_host_trans; eauto.
        -- rewrite step_json_unreadable by done.
           eexists; split; [reflexivity|].
           destruct (finished_by_catch c
                       (TypeError (null_read_message "Response")) s1 _ H1)
             as (?&?&?&?&?).
           split_and!; try done.
           ** intros c' Hne. rewrite <- Hs by done. auto.
           ** eapply same_host_trans; eauto.
      * rewrite step_json_rejected by done.
        eexists; split; [reflexivity|].
        destruct (finished_by_catch c e s1 _ H1) as (?&?&?&?&?).
        split_and!; try done.
        ** intros c' Hne. rewrite <- Hs by done. auto.
        ** eapply same_host_trans; eauto.
    + cbn [run]. rewrite step_fetch_not_ok by done.
      eexists; split; [reflexivity|].
      unfold consumed, outcome, logged. cbn [raises]. rewrite Hok.
      eapply finished_by_catch; eauto.
Qed.

(** ** Steps in general *)

Lemma stage_of_lt s c p : stage_of s c = Some p -> c < length (controllers s).
Proof.
  unfold stage_of. intros H.
  destruct (controllers s !! c) as [a|] eqn:E; [|discriminate].
  eapply lookup_lt_Some; eauto.
Qed.

Lemma caught_not_loading c e s : isLoading (set_stage c Finished (caught e s)) = false.
Proof.
  destruct (set_stage_fields c Finished (caught e s)) as (_ & -> & _).
  unfold caught. now destruct (String.eqb (name e) "AbortError").
Qed.

Lemma stored_not_loading c v s : isLoading (set_stage c Finished (stored v s)) = false.
Proof. now destruct (set_stage_fields c Finished (stored v s)) as (_ & -> & _). Qed.

Lemma caught_unhandled c p e s :
  unhandled (set_stage c p (caught e s)) = unhandled s.
Proof.
  destruct (set_stage_fields c p (caught e s)) as (_&_&_&_&_&_&_&_& ->).
  unfold caught. now destruct (String.eqb (name e) "AbortError").
Qed.

Lemma finished_stage c p e s :
  stage_of s c = Some p ->
  stage_of (set_stage c Finished (caught e s)) c = Some Finished.
Proof. intros H. eapply stage_of_set_stage_eq. rewrite caught_stage. eauto. Qed.

(** A settled promise either ends the invocation, with the [finally] block
    run, or moves it from the first [await] to the second. *)
Lemma settled_step s ev s' c :
  step s ev = Some s' ->
  (exists p, ev = FetchSettled c p) \/ (exists p, ev = JsonSettled c p) ->
  (isLoading s' = false /\ stage_of s' c = Some Finished) \/
  (s' = set_stage c AwaitJson s /\ stage_of s c = Some AwaitFetch).
Proof.
  intros Hstep [[p ->]|[p ->]]; cbn in Hstep;
    destruct (stage_of s c) as [[]|] eqn:Hc; try discriminate;
    injection Hstep as <-.
  - rewrite after_fetch_state.
    destruct p as [res|e]; [destruct (ok res)|].
    + now right.
    + left. split; [apply caught_not_loading | eapply finished_stage; eauto].
    + left. split; [apply caught_not_loading | eapply finished_stage; eauto].
  - left. rewrite after_json_state.
    destruct p as [data|e];
      [destruct (get_property data "Response") as [answer|];
       [destruct (strict_eq_string answer "False")|]|].
    + split; [apply caught_not_loading | eapply finished_stage; eauto].
    + split; [apply stored_not_loading|]. eapply stage_of_set_stage_eq; eauto.
    + split; [apply caught_not_loading | eapply finished_stage; eauto].
    + split; [apply caught_not_loading | eapply finished_stage; eauto].
Qed.

(** No step leaves a rejected promise behind. *)
Lemma nothing_escapes s ev s' :
  step s ev = Some s' -> unhandled s' = unhandled s.
Proof.
  destruct ev as [q| |c p|c p]; cbn.
  - destruct (mounted s); [|discriminate]. intros [= <-].
    unfold render. destruct (decide (query s = Some q)); [done|].
    destruct (run_cleanup_fields s) as (_&_&_&_&_&Hu&_).
    destruct (le_lt_dec 3 (js_length q)).
    + now rewrite commit_fetch.
    + now rewrite commit_gate.
  - destruct (mounted s); [|discriminate]. intros [= <-].
    apply run_cleanup_fields.
  - destruct (stage_of s c) as [[]|] eqn:Hc; try discriminate.
    intros [= <-]. rewrite after_fetch_state.
    destruct p as [res|e]; [destruct (ok res)|].
    + apply set_stage_fields.
    + apply caught_unhandled.
    + apply caught_unhandled.
  - destruct (stage_of s c) as [[]|] eqn:Hc; try discriminate.
    intros [= <-]. rewrite after_json_state.
    destruct p as [data|e];
      [destruct (get_property data "Response") as [answer|];
       [destruct (strict_eq_string answer "False")|]|].
    + apply caught_unhandled.
    + now destruct (set_stage_fields c Finished
                      (stored (default VUndefined (get_property data "Search")) s))
        as (_&_&_&_&_&_&_&_& ->).
    + apply caught_unhandled.
    + apply caught_unhandled.
Qed.

Lemma reachable_unhandled s : reachable s -> unhandled s = [].
Proof.
  induction 1 as [|s ev s' _ IH Hstep]; [done|].
  now rewrite (nothing_escapes _ _ _ Hstep).
Qed.

(** While [isLoading] is true, some invocation is outstanding. *)
Lemma loading_step s ev s' :
  step s ev = Some s' ->
  (isLoading s = true -> some_outstanding s) ->
  isLoading s' = true -> some_outstanding s'.
Proof.
  intros Hstep IH Hl. destruct ev as [q| |c p|c p].
  - cbn in Hstep. destruct (mounted s); [|discriminate].
    injection Hstep as <-. unfold render in *.
    destruct (decide (query s = Some q)); [auto|].
    pose proof (commit_published s q) as Hp.
    pose proof (commit_stage_new s q) as Hn.
    destruct (js_length q <? 3)%nat.
    + injection Hp as _ Hl' _. rewrite Hl' in Hl.
      destruct (IH Hl) as (c & p & Hc & Ho).
      exists c, p. split; [|done].
      rewrite commit_stage_old; [done|]. eapply stage_of_lt; eauto.
    + now exists (length (controllers s)), AwaitFetch.
  - cbn in Hstep. destruct (mounted s); [|discriminate].
    injection Hstep as <-.
    destruct (run_cleanup_fields s) as (Hp & _). injection Hp as _ Hl' _.
    destruct (IH (eq_trans (eq_sym Hl') Hl)) as (c & p & Hc & Ho).
    exists c, p. split; [|done]. now rewrite <- (run_cleanup_stage s c) in Hc.
  - destruct (settled_step s _ s' c Hstep) as [[Hf _]|[-> Hc]]; [eauto|congruence|].
    exists c, AwaitJson. split; [|done]. eapply stage_of_set_stage_eq; eauto.
  - destruct (settled_step s _ s' c Hstep) as [[Hf _]|[-> Hc]]; [eauto|congruence|].
    exists c, AwaitJson. split; [|done]. eapply stage_of_set_stage_eq; eauto.
Qed.

(** The converse does not hold: the [finally] of an aborted invocation
    resets the flag while the newer request is still out. *)
Example not_loading_while_outstanding :
  (s' ← step sup_pending
          (FetchSettled 0 (Rejected (AbortError "The user aborted a request.")));
   Some (isLoading s', stage_of s' 1))
  = Some (false, Some AwaitFetch).
Proof. reflexivity. Qed.

Lemma loading_invariant s :
  reachable s -> isLoading s = true -> some_outstanding s.
Proof.
  induction 1 as [|s ev s' _ IH Hstep]; [discriminate|].
  eapply loading_step; eauto.
Qed.

(** ** Helpers on strings and values *)

Lemma prefix_refl n : String.prefix n n = true.
Proof.
  induction n as [|a n IH]; [done|]. cbn.
  now destruct (ascii_dec a a).
Qed.

Lemma includes_suffix p n : includes n (p +:+ n) = true.
Proof.
  induction p as [|a p IH].
  - change ("" +:+ n) with n.
    destruct n; cbn [includes]; now rewrite prefix_refl.
  - change (String a p +:+ n) with (String a (p +:+ n)).
    cbn [includes]. rewrite IH. apply orb_true_r.
Qed.

Lemma ok_range res :
  ok res = true <-> (200 <= status res)%N /\ (status res <= 299)%N.
Proof. unfold ok. rewrite andb_true_iff, !N.leb_le. tauto. Qed.

Lemma get_property_total data key key' v :
  get_property data key = Some v ->
  get_property data key' = Some (default VUndefined (get_property data key')).
Proof. destruct data; cbn; congruence. Qed.

(** ** The claims about one reply *)

Lemma found_state s c res data answer :
  stage_of s c = Some AwaitFetch ->
  (200 <= status res)%N -> (status res <= 299)%N ->
  get_property data "Response" = Some answer ->
  answer <> VStr "False" ->
  exists s',
    run s (deliver c (Answer res (Fulfilled data))) = Some s' /\
    get_property data "Search" = Some (movies s') /\
    error s' = "" /\ isLoading s' = false /\
    stage_of s' c = Some Finished.
Proof.
  intros Hc Hlo Hhi Hd Hne.
  assert (Hok : ok res = true) by now apply ok_range.
  assert (Ha : strict_eq_string answer "False" = false).
  { destruct (strict_eq_string answer "False") eqn:E; [|done].
    now apply strict_eq_string_true in E. }
  destruct (deliver_run s c (Answer res (Fulfilled data)) Hc)
    as (s' & Hrun & Hp & _ & Hf & _).
  exists s'. unfold outcome in Hp. cbn [raises] in Hp.
  rewrite Hok, Hd, Ha in Hp. injection Hp as Hm Hl He.
  pose proof (get_property_total data _ "Search" _ Hd) as Hs.
  rewrite <- Hm in Hs.
  now split_and!.
Qed.

(** C3: an attempt whose response has a status from 200 to 299 and whose
    parsed body reads [Response] as anything but the string ["False"]
    replaces [movies] with the body's [Search] value, the array itself when
    it is one, sets [error] to the empty string and ends with [isLoading]
    false. *)
Theorem success_publishes_search s c res data answer :
  stage_of s c = Some AwaitFetch ->
  (200 <= status res)%N -> (status res <= 299)%N ->
  get_property data "Response" = Some answer ->
  answer <> VStr "False" ->
  exists s',
    run s (deliver c (Answer res (Fulfilled data))) = Some s' /\
    get_property data "Search" = Some (movies s') /\
    (forall items, get_property data "Search" = Some (VArr items) ->
                   movies s' = VArr items) /\
    error s' = "" /\ isLoading s' = false /\
    stage_of s' c = Some Finished.
Proof.
  intros Hc Hlo Hhi Hd Hne.
  destruct (found_state s c res data answer Hc Hlo Hhi Hd Hne)
    as (s' & Hrun & Hs & He & Hl & Hf).
  exists s'. split_and!; try done.
  intros items Hi. congruence.
Qed.

Lemma success_publishes_search_witness :
  exists s',
    run bat_pending (deliver 0 (Answer ok_200 (Fulfilled bat_body))) = Some s' /\
    get_property bat_body "Search" = Some (movies s') /\
    (forall items, get_property bat_body "Search" = Some (VArr items) ->
                   movies s' = VArr items) /\
    error s' = "" /\ isLoading s' = false /\
    stage_of s' 0 = Some Finished.
Proof.
  apply (success_publishes_search bat_pending 0 ok_200 bat_body (VStr "True"));
    [reflexivity | cbn; lia | cbn; lia | reflexivity | discriminate].
Defined.

(** C4: an attempt whose response has a status from 200 to 299 and whose
    body reads [Response] as the string ["False"] sets [error] to exactly
    ["Movie not found!"], leaves [movies] as it was, logs the message and
    ends with [isLoading] false. *)
Theorem not_found_sets_error s c res data :
  stage_of s c = Some AwaitFetch ->
  (200 <= status res)%N -> (status res <= 299)%N ->
  get_property data "Response" = Some (VStr "False") ->
  exists s',
    run s (deliver c (Answer res (Fulfilled data))) = Some s' /\
    error s' = "Movie not found!" /\
    movies s' = movies s /\
    console s' = (console s ++ ["Movie not found!"])%list /\
    isLoading s' = false /\
    stage_of s' c = Some Finished.
Proof.
  intros Hc Hlo Hhi Hd.
  assert (Hok : ok res = true) by now apply ok_range.
  destruct (deliver_run s c (Answer res (Fulfilled data)) Hc)
    as (s' & Hrun & Hp & Hlog & Hf & _).
  exists s'. unfold outcome in Hp. unfold logged in Hlog.
  cbn [raises] in Hp, Hlog. rewrite Hok, Hd in Hp, Hlog.
  cbn in Hp, Hlog. injection Hp as Hm Hl He.
  now split_and!.
Qed.

Lemma not_found_sets_error_witness :
  exists s',
    run bat_pending
      (deliver 0 (Answer ok_200
                    (Fulfilled (VObj [("Response", VStr "False");
                                      ("Error", VStr "Movie not found!")]))))
    = Some s' /\
    error s' = "Movie not found!" /\
    movies s' = movies bat_pending /\
    console s' = (console bat_pending ++ ["Movie not found!"])%list /\
    isLoading s' = false /\
    stage_of s' 0 = Some Finished.
Proof.
  apply (not_found_sets_error bat_pending 0 ok_200);
    [reflexivity | cbn; lia | cbn; lia | reflexivity].
Defined.

(** C5: an attempt whose response has a status outside 200 to 299 throws,
    inside its [try] block, an error whose message ends with the decimal
    digits of the status; that message becomes [error] and [isLoading] ends
    false.  For a 404 the error string includes ["404"]. *)
Theorem http_error_carries_status s c res body :
  stage_of s c = Some AwaitFetch ->
  (status res < 200)%N \/ (299 < status res)%N ->
  try_after_fetch (Fulfilled res) s =
    (Throw (Error (http_error_message res)), s) /\
  includes (decimal (status res)) (http_error_message res) = true /\
  exists s',
    run s (deliver c (Answer res body)) = Some s' /\
    error s' = http_error_message res /\
    isLoading s' = false /\
    unhandled s' = unhandled s /\
    (status res = 404%N -> includes "404" (error s') = true).
Proof.
  intros Hc Hst.
  assert (Hok : ok res = false).
  { destruct (ok res) eqn:E; [|done]. apply ok_range in E. lia. }
  split_and!.
  - rewrite try_after_fetch_cases. now rewrite Hok.
  - apply includes_suffix.
  - destruct (deliver_run s c (Answer res body) Hc)
      as (s' & Hrun & Hp & _ & _ & _ & Hh).
    exists s'. unfold outcome in Hp. cbn [raises] in Hp. rewrite Hok in Hp.
    cbn in Hp. injection Hp as Hm Hl He.
    split_and!; try done.
    + apply Hh.
    + intros H404. rewrite He. unfold http_error_message. rewrite H404.
      reflexivity.
Qed.

Lemma http_error_carries_status_witness :
  try_after_fetch (Fulfilled not_found_404) bat_pending =
    (Throw (Error (http_error_message not_found_404)), bat_pending) /\
  includes (decimal (status not_found_404))
           (http_error_message not_found_404) = true /\
  exists s',
    run bat_pending (deliver 0 (Answer not_found_404 (Fulfilled VNull)))
    = Some s' /\
    error s' = http_error_message not_found_404 /\
    isLoading s' = false /\
    unhandled s' = unhandled bat_pending /\
    (status not_found_404 = 404%N -> includes "404" (error s') = true).
Proof.
  apply (http_error_carries_status bat_pending 0 not_found_404 (Fulfilled VNull));
    [reflexivity | right; cbn; lia].
Defined.

(** C10: an attempt whose response has a status from 200 to 299 and whose
    body reads [Response] as anything but ["False"] while it has no
    [Search] field publishes that absent value unchecked: [movies] becomes
    [undefined], neither an array nor what it was before. *)
Theorem missing_search_publishes_undefined s c res data answer :
  stage_of s c = Some AwaitFetch ->
  (200 <= status res)%N -> (status res <= 299)%N ->
  get_property data "Response" = Some answer ->
  answer <> VStr "False" ->
  has_field data "Search" = false ->
  exists s',
    run s (deliver c (Answer res (Fulfilled data))) = Some s' /\
    movies s' = VUndefined /\
    (forall items, movies s' <> VArr items) /\
    error s' = "" /\ isLoading s' = false.
Proof.
  intros Hc Hlo Hhi Hd Hne Hno.
  destruct (found_state s c res data answer Hc Hlo Hhi Hd Hne)
    as (s' & Hrun & Hs & He & Hl & _).
  assert (Hu : movies s' = VUndefined).
  { destruct data; cbn in Hs, Hno, Hd; try congruence.
    apply bool_decide_eq_false in Hno.
    destruct (own_property fields "Search") as [v|]; [|cbn in Hs; congruence].
    exfalso. apply Hno. eauto. }
  exists s'. split_and!; try done. intros items. now rewrite Hu.
Qed.

Lemma missing_search_publishes_undefined_witness :
  exists s',
    run bat_pending
      (deliver 0 (Answer ok_200 (Fulfilled (VObj [("Response", VStr "True")]))))
    = Some s' /\
    movies s' = VUndefined /\
    (forall items, movies s' <> VArr items) /\
    error s' = "" /\ isLoading s' = false.
Proof.
  apply (missing_search_publishes_undefined bat_pending 0 ok_200
           (VObj [("Response", VStr "True")]) (VStr "True"));
    [reflexivity | cbn; lia | cbn; lia | reflexivity | discriminate
    | reflexivity].
Defined.

(** ** The length gate *)

(** C2, as the spec states it, fails: with the request for ["bat"] still
    out, a render with the two-character query ["su"] clears [movies] and
    [error] and sends nothing, but [isLoading] is still true when the
    effect returns. *)
Lemma gate_leaves_isLoading_true :
  reachable bat_pending /\
  query bat_pending <> Some "su" /\
  js_length "su" < 3 /\
  exists s',
    step bat_pending (Render "su") = Some s' /\
    movies s' = VArr [] /\ error s' = "" /\
    network s' = network bat_pending /\
    isLoading s' = true /\ isLoading s' <> false.
Proof.
  split_and!.
  - apply (reachable_step initial (Render "bat")); [constructor | reflexivity].
  - discriminate.
  - cbn. lia.
  - eexists. split; [reflexivity|]. now split_and!.
Qed.

(** C2, amended: for a query whose [length] is below three the effect
    sets [movies] to the empty array and [error] to the empty string, calls
    [fetch] not at all, and leaves [isLoading] as it was; in a reachable
    state with no invocation outstanding that is false. *)
Theorem gate_clears_results_and_error s q :
  mounted s = true ->
  query s <> Some q ->
  js_length q < 3 ->
  exists s',
    step s (Render q) = Some s' /\
    movies s' = VArr [] /\ error s' = "" /\
    network s' = network s /\
    isLoading s' = isLoading s /\
    (reachable s -> ~ some_outstanding s -> isLoading s' = false).
Proof.
  intros Hm Hq Hlen. exists (commit q s).
  pose proof (commit_published s q) as Hp.
  destruct (Nat.ltb_spec (js_length q) 3) as [_|?]; [|lia].
  injection Hp as Hmv Hl He.
  split_and!; try done.
  - cbn. rewrite Hm. now rewrite render_changed.
  - rewrite commit_gate by done. cbn. apply run_cleanup_fields.
  - intros Hr Hno. rewrite Hl.
    destruct (isLoading s) eqn:E; [|done].
    exfalso. apply Hno. now apply loading_invariant.
Qed.

Lemma gate_clears_results_and_error_witness :
  exists s',
    step initial (Render "su") = Some s' /\
    movies s' = VArr [] /\ error s' = "" /\
    network s' = network initial /\
    isLoading s' = isLoading initial /\
    (reachable initial -> ~ some_outstanding initial -> isLoading s' = false).
Proof.
  apply (gate_clears_results_and_error initial "su");
    [reflexivity | discriminate | cbn; lia].
Defined.

(** ** Exceptions and the loading flag *)

(** The four ways the resumed [try] block throws: a rejected [fetch] or
    [res.json()] (a cancellation, a network failure, a body that does not
    parse), a status outside 200 to 299, a body that cannot be read, and
    [Response] equal to ["False"]. *)
Lemma thrown_cases s c :
  (forall e, thrown s (FetchSettled c (Rejected e)) = Some e) /\
  (forall e, thrown s (JsonSettled c (Rejected e)) = Some e) /\
  (forall res, ok res = false ->
     thrown s (FetchSettled c (Fulfilled res))
     = Some (Error (http_error_message res))) /\
  (forall data, get_property data "Response" = None ->
     thrown s (JsonSettled c (Fulfilled data))
     = Some (TypeError (null_read_message "Response"))) /\
  (forall data, get_property data "Response" = Some (VStr "False") ->
     thrown s (JsonSettled c (Fulfilled data))
     = Some (Error "Movie not found!")).
Proof.
  split_and!; intros; unfold thrown;
    rewrite ?try_after_fetch_cases, ?try_after_json_cases; try done.
  - now rewrite H.
  - now rewrite H.
  - now rewrite H.
Qed.

Lemma thrown_state s ev s' e :
  step s ev = Some s' -> thrown s ev = Some e ->
  exists c p, stage_of s c = Some p /\ s' = set_stage c Finished (caught e s).
Proof.
  destruct ev as [q| |c p|c p]; cbn [thrown]; try discriminate.
  - cbn. destruct (stage_of s c) as [[]|] eqn:Hc; try discriminate.
    intros [= <-] Ht. exists c, AwaitFetch. split; [done|].
    rewrite after_fetch_state. rewrite try_after_fetch_cases in Ht.
    destruct p as [res|e']; [destruct (ok res)|]; congruence.
  - cbn. destruct (stage_of s c) as [[]|] eqn:Hc; try discriminate.
    intros [= <-] Ht. exists c, AwaitJson. split; [done|].
    rewrite after_json_state. rewrite try_after_json_cases in Ht.
    destruct p as [data|e'];
      [destruct (get_property data "Response") as [answer|];
       [destruct (strict_eq_string answer "False")|]|]; congruence.
Qed.

(** C6: whatever the resumed [try] block throws is caught there and no
    rejection escapes; [finally] sets [isLoading] to false and [movies] is
    left alone.  An exception named [AbortError], which is how a cancelled
    [fetch] rejects, changes neither [error] nor the console; any other
    exception puts its message into [error] and on the console. *)
Theorem cancellation_is_silent s ev s' e :
  step s ev = Some s' ->
  thrown s ev = Some e ->
  unhandled s' = unhandled s /\
  isLoading s' = false /\
  movies s' = movies s /\
  (name e = "AbortError" -> error s' = error s /\ console s' = console s) /\
  (name e <> "AbortError" ->
   error s' = message e /\ console s' = (console s ++ [message e])%list).
Proof.
  intros Hstep Ht.
  destruct (thrown_state s ev s' e Hstep Ht) as (c & p & Hc & ->).
  destruct (finished_by_catch c e s p Hc) as (Hp & Hlog & _ & _ & Hh).
  unfold failed, published in Hp. injection Hp as Hm Hl He.
  split_and!; try done.
  - apply Hh.
  - intros Hn. apply String.eqb_eq in Hn. rewrite Hn in He, Hlog. done.
  - intros Hn. apply String.eqb_neq in Hn. rewrite Hn in He, Hlog. done.
Qed.

Lemma cancellation_is_silent_witness :
  exists s',
    step bat_pending
      (FetchSettled 0 (Rejected (AbortError "The user aborted a request.")))
    = Some s' /\
    unhandled s' = unhandled bat_pending /\
    isLoading s' = false /\
    movies s' = movies bat_pending /\
    (name (AbortError "The user aborted a request.") = "AbortError" ->
     error s' = error bat_pending /\ console s' = console bat_pending) /\
    (name (AbortError "The user aborted a request.") <> "AbortError" ->
     error s' = message (AbortError "The user aborted a request.") /\
     console s' =
       (console bat_pending ++
          [message (AbortError "The user aborted a request.")])%list).
Proof.
  eexists. split; [reflexivity|].
  apply (cancellation_is_silent bat_pending
           (FetchSettled 0 (Rejected (AbortError "The user aborted a request."))));
    reflexivity.
Defined.

Lemma raises_none r :
  raises r = None -> exists res data, r = Answer res (Fulfilled data).
Proof.
  destruct r as [e|res [data|e]]; cbn; try discriminate; eauto.
  destruct (ok res); discriminate.
Qed.

Lemma outcome_not_loading r t : snd (fst (outcome r t)) = false.
Proof.
  unfold outcome. destruct (raises r) as [e|] eqn:E.
  - unfold failed. now destruct t as [[m l] err].
  - now destruct (raises_none r E) as (res & data & ->).
Qed.

(** C7: in every reachable state [isLoading] is true only while some
    invocation of [fetchMovies] is outstanding; every reply to an
    outstanding invocation, be it a success, a failure or a cancellation,
    is consumed and ends with [isLoading] false; whichever step settles the
    promise of an invocation leaves [isLoading] false; and an effect that
    passes the length gate starts its attempt with [error] cleared. *)
Theorem isLoading_released s :
  reachable s ->
  (isLoading s = true -> some_outstanding s) /\
  (forall c r, stage_of s c = Some AwaitFetch ->
     exists s', run s (deliver c r) = Some s' /\
                isLoading s' = false /\ stage_of s' c = Some Finished) /\
  (forall ev c s', step s ev = Some s' -> settles c ev = true ->
     stage_of s' c = Some Finished -> isLoading s' = false) /\
  (forall q, mounted s = true -> query s <> Some q -> 3 <= js_length q ->
     exists s', step s (Render q) = Some s' /\
                error s' = "" /\ isLoading s' = true /\
                stage_of s' (length (controllers s)) = Some AwaitFetch).
Proof.
  intros Hr. split_and!.
  - now apply loading_invariant.
  - intros c r Hc.
    destruct (deliver_run s c r Hc) as (s' & Hrun & Hp & _ & Hf & _).
    exists s'. split_and!; try done.
    pose proof (outcome_not_loading r (published s)) as Hl.
    now rewrite <- Hp in Hl.
  - intros ev c s' Hstep Hset Hf.
    assert (Hev : (exists p, ev = FetchSettled c p) \/
                  (exists p, ev = JsonSettled c p)).
    { destruct ev as [q| |c' p|c' p]; cbn in Hset; try discriminate;
        apply bool_decide_eq_true in Hset; subst c'; eauto. }
    destruct (settled_step s ev s' c Hstep Hev) as [[Hl _]|[-> Hc]]; [done|].
    erewrite stage_of_set_stage_eq in Hf by eauto. discriminate.
  - intros q Hm Hq Hlen. exists (commit q s).
    pose proof (commit_published s q) as Hp.
    pose proof (commit_stage_new s q) as Hn.
    destruct (Nat.ltb_spec (js_length q) 3) as [?|_]; [lia|].
    injection Hp as _ Hl He.
    split_and!; try done.
    cbn. rewrite Hm. now rewrite render_changed.
Qed.

Lemma isLoading_released_witness :
  (isLoading bat_pending = true -> some_outstanding bat_pending) /\
  (forall c r, stage_of bat_pending c = Some AwaitFetch ->
     exists s', run bat_pending (deliver c r) = Some s' /\
                isLoading s' = false /\ stage_of s' c = Some Finished) /\
  (forall ev c s', step bat_pending ev = Some s' -> settles c ev = true ->
     stage_of s' c = Some Finished -> isLoading s' = false) /\
  (forall q, mounted bat_pending = true -> query bat_pending <> Some q ->
     3 <= js_length q ->
     exists s', step bat_pending (Render q) = Some s' /\
                error s' = "" /\ isLoading s' = true /\
                stage_of s' (length (controllers bat_pending))
                = Some AwaitFetch).
Proof.
  apply (isLoading_released bat_pending).
  apply (reachable_step initial (Render "bat")); [constructor | reflexivity].
Defined.

(** ** The same query again *)

Lemma commit_query s q : query (commit q s) = Some q.
Proof.
  destruct (le_lt_dec 3 (js_length q)).
  - now rewrite commit_fetch.
  - now rewrite commit_gate.
Qed.

Lemma commit_mounted s q : mounted (commit q s) = mounted s.
Proof.
  destruct (run_cleanup_fields s) as (_&_&Hm&_).
  destruct (le_lt_dec 3 (js_length q)).
  - now rewrite commit_fetch.
  - now rewrite commit_gate.
Qed.

(** A reply decides the whole triple but for [movies] and [error] on the
    paths that leave them alone. *)
Lemma outcome_loading r m l l' err :
  outcome r (m, l, err) = outcome r (m, l', err).
Proof.
  unfold outcome. destruct (raises r) as [e|] eqn:E; [done|].
  now destruct (raises_none r E) as (res & data & ->).
Qed.

Lemma outcome_again r m :
  outcome r (fst (fst (outcome r (m, true, ""))), true, "")
  = outcome r (m, true, "").
Proof.
  unfold outcome. destruct (raises r) as [e|] eqn:E; [done|].
  now destruct (raises_none r E) as (res & data & ->).
Qed.

Lemma issued_once s q r :
  exists s1,
    run (commit q s) (answered q (length (controllers s)) r) = Some s1 /\
    published s1 =
      (if (js_length q <? 3)%nat then (VArr [], isLoading s, "")
       else outcome r (movies s, true, "")) /\
    query s1 = Some q /\ mounted s1 = mounted s.
Proof.
  pose proof (commit_published s q) as Hp.
  pose proof (commit_stage_new s q) as Hn.
  unfold answered. destruct (js_length q <? 3)%nat.
  - exists (commit q s). split_and!; try done.
    + apply commit_query.
    + apply commit_mounted.
  - destruct (deliver_run (commit q s) (length (controllers s)) r Hn)
      as (s1 & Hrun & Hp1 & _ & _ & _ & Hq & _ & Hm & _).
    exists s1. split_and!; try done.
    + now rewrite Hp1, Hp.
    + now rewrite Hq, commit_query.
    + now rewrite Hm, commit_mounted.
Qed.

(** C9: the effect run for a query and answered, then run for the same
    query again and given the same reply, publishes the same
    [{ movies, isLoading, error }] both times; and a mere re-render with
    the same query runs nothing at all. *)
Theorem same_query_twice s q r :
  exists s1 s2,
    run (commit q s) (answered q (length (controllers s)) r) = Some s1 /\
    run (commit q s1) (answered q (length (controllers s1)) r) = Some s2 /\
    published s2 = published s1 /\
    render q s1 = s1.
Proof.
  destruct (issued_once s q r) as (s1 & Hrun1 & Hp1 & Hq1 & _).
  destruct (issued_once s1 q r) as (s2 & Hrun2 & Hp2 & _).
  exists s1, s2. split_and!; try done.
  - rewrite Hp2, Hp1. destruct (js_length q <? 3)%nat.
    + unfold published in Hp1. now injection Hp1 as _ -> _.
    + unfold published in Hp1.
      assert (Hm : movies s1 = fst (fst (outcome r (movies s, true, ""))))
        by now rewrite <- Hp1.
      rewrite Hm. apply outcome_again.
  - now apply render_unchanged.
Qed.

Example bat_twice :
  published <$> run (commit "bat" initial)
                  (answered "bat" 0 (Answer ok_200 (Fulfilled bat_body)))
  = Some (VArr [VObj [("Title", VStr "Batman")]], false, "") /\
  (s1 ← run (commit "bat" initial)
         (answered "bat" 0 (Answer ok_200 (Fulfilled bat_body)));
   published <$> run (commit "bat" s1)
                   (answered "bat" 1 (Answer ok_200 (Fulfilled bat_body))))
  = Some (VArr [VObj [("Title", VStr "Batman")]], false, "").
Proof. split; reflexivity. Qed.

(** ** A superseded attempt *)

Lemma run_app s l1 l2 :
  run s (l1 ++ l2) = s' ← run s l1; run s' l2.
Proof.
  revert s. induction l1 as [|ev l1 IH]; intros s; [done|].
  cbn [run app]. destruct (step s ev); [apply IH | done].
Qed.

Lemma commit_cleanup s q :
  3 <= js_length q -> cleanup (commit q s) = Some (length (controllers s)).
Proof.
  intros H. destruct (run_cleanup_fields s) as (_&_&_&_&_&_&Hlen).
  rewrite commit_fetch by done. cbn. now rewrite Hlen.
Qed.

(** The effect's first act is the cleanup of the run before it: that
    run's controller is aborted from then on. *)
Lemma commit_aborts s q k :
  cleanup s = Some k -> k < length (controllers s) ->
  aborted <$> controllers (commit q s) !! k = Some true.
Proof.
  intros Hk Hlt.
  assert (Ha : aborted <$> controllers (run_cleanup s) !! k = Some true).
  { unfold run_cleanup, abort. rewrite Hk. cbn.
    destruct (lookup_lt_is_Some_2 (controllers s) k Hlt) as [a Ea].
    rewrite Ea. cbn. now rewrite list_lookup_insert_eq. }
  destruct (run_cleanup_fields s) as (_&_&_&_&_&_&Hlen).
  destruct (le_lt_dec 3 (js_length q)).
  - rewrite commit_fetch by done. cbn. now rewrite lookup_app_l by lia.
  - rewrite commit_gate by done. cbn. now rewrite lookup_app_l by lia.
Qed.

Lemma abort_rejection s c e :
  stage_of s c = Some AwaitFetch -> name e = "AbortError" ->
  exists s', step s (FetchSettled c (Rejected e)) = Some s' /\
    movies s' = movies s /\ isLoading s' = false /\ error s' = error s /\
    console s' = console s /\
    (forall c', c' <> c -> stage_of s' c' = stage_of s c').
Proof.
  intros Hc Hn. rewrite step_fetch_rejected by done.
  eexists. split; [reflexivity|].
  destruct (finished_by_catch c e s _ Hc) as (Hp & Hlog & _ & Hs & _).
  apply String.eqb_eq in Hn. rewrite Hn in Hlog.
  unfold failed, published in Hp. rewrite Hn in Hp. injection Hp as Hm Hl He.
  now split_and!.
Qed.

(** C1, as the spec states it, fails: nothing in the hook compares attempt
    identities.  With ["bat"] superseded by ["sup"] and its controller
    aborted, a transport that still delivers the response for ["bat"]
    after the one for ["sup"] gets it published: the final [movies] are
    those of ["bat"], not those ["sup"] alone would leave. *)
Lemma stale_response_overwrites :
  run initial [Render "bat"; Render "sup"] = Some sup_pending /\
  aborted <$> controllers sup_pending !! 0 = Some true /\
  published <$>
    run sup_pending
      (deliver 1 (Answer ok_200 (Fulfilled sup_body)) ++
       deliver 0 (Answer ok_200 (Fulfilled bat_body)))
  = Some (VArr [VObj [("Title", VStr "Batman")]], false, "") /\
  published <$>
    run initial (Render "sup" :: deliver 0 (Answer ok_200 (Fulfilled sup_body)))
  = Some (VArr [VObj [("Title", VStr "Superman")]], false, "") /\
  VArr [VObj [("Title", VStr "Batman")]]
  <> VArr [VObj [("Title", VStr "Superman")]].
Proof. split_and!; try reflexivity. discriminate. Qed.

(** C1, amended: when the query changes from one fetch-triggering value to
    another while the first request is out, the first controller is
    aborted, and once its [fetch] has rejected with an [AbortError], as a
    transport that honours the signal makes it do, the final
    [{ movies, isLoading, error }] is the one the newer attempt alone
    would leave, whether the rejection comes before or after the newer
    reply.  The discard rests on that rejection and the name check in
    [catch]; attempt identities are not compared. *)
Theorem superseded_abort_is_discarded s q1 q2 r e :
  mounted s = true ->
  query s <> Some q1 -> q1 <> q2 ->
  3 <= js_length q1 -> 3 <= js_length q2 ->
  name e = "AbortError" ->
  let old := length (controllers s) in
  let new := S old in
  exists s12 sA sB sRef,
    run s [Render q1; Render q2] = Some s12 /\
    aborted <$> controllers s12 !! old = Some true /\
    run s12 (deliver new r ++ [FetchSettled old (Rejected e)]) = Some sA /\
    run s12 (FetchSettled old (Rejected e) :: deliver new r) = Some sB /\
    run (commit q2 s) (deliver old r) = Some sRef /\
    published sA = published sRef /\
    published sB = published sRef.
Proof.
  intros Hm Hq1 Hne Hl1 Hl2 Hn old new.
  set (s1 := commit q1 s). set (s12 := commit q2 s1).
  assert (Hlen1 : length (controllers s1) = new) by apply commit_length.
  assert (Hold1 : stage_of s1 old = Some AwaitFetch).
  { unfold s1, old. rewrite commit_stage_new.
    destruct (Nat.ltb_spec (js_length q1) 3); [lia|done]. }
  assert (Hold : stage_of s12 old = Some AwaitFetch).
  { unfold s12. rewrite commit_stage_old by lia. done. }
  assert (Hnew : stage_of s12 new = Some AwaitFetch).
  { unfold s12. rewrite <- Hlen1, commit_stage_new.
    destruct (Nat.ltb_spec (js_length q2) 3); [lia|done]. }
  assert (Hp12 : published s12 = (movies s, true, "")).
  { unfold s12. rewrite commit_published.
    destruct (Nat.ltb_spec (js_length q2) 3); [lia|].
    pose proof (commit_published s q1) as Hp1. fold s1 in Hp1.
    destruct (Nat.ltb_spec (js_length q1) 3); [lia|].
    now injection Hp1 as -> _ _. }
  assert (Hrun12 : run s [Render q1; Render q2] = Some s12).
  { cbn. rewrite Hm, render_changed by done. fold s1.
    unfold s1 at 1. rewrite commit_mounted, Hm.
    rewrite render_changed; [done|].
    unfold s1. rewrite commit_query. congruence. }
  assert (Hab : aborted <$> controllers s12 !! old = Some true).
  { unfold s12. apply commit_aborts; [|lia].
    unfold s1. now apply commit_cleanup. }
  (* the newer reply first, the rejection after *)
  destruct (deliver_run s12 new r Hnew) as (sA1 & HrunA & HpA & _ & _ & HsA & _).
  assert (HoldA : stage_of sA1 old = Some AwaitFetch)
    by (rewrite HsA by lia; done).
  destruct (abort_rejection sA1 old e HoldA Hn)
    as (sA & HstepA & HmA & HlA & HeA & _).
  (* the rejection first, the newer reply after *)
  destruct (abort_rejection s12 old e Hold Hn)
    as (sB1 & HstepB & HmB & HlB & HeB & _ & HsB).
  assert (HnewB : stage_of sB1 new = Some AwaitFetch)
    by (rewrite HsB by lia; done).
  destruct (deliver_run sB1 new r HnewB) as (sB & HrunB & HpB & _).
  (* the newer attempt alone *)
  assert (HoldR : stage_of (commit q2 s) old = Some AwaitFetch).
  { unfold old. rewrite commit_stage_new.
    destruct (Nat.ltb_spec (js_length q2) 3); [lia|done]. }
  destruct (deliver_run (commit q2 s) old r HoldR) as (sRef & HrunR & HpR & _).
  assert (HpR' : published sRef = outcome r (movies s, true, "")).
  { rewrite HpR, commit_published.
    destruct (Nat.ltb_spec (js_length q2) 3); [lia|done]. }
  exists s12, sA, sB, sRef. split_and!; try done.
  - rewrite run_app, HrunA.
    change (run sA1 [FetchSettled old (Rejected e)] = Some sA).
    cbn [run]. now rewrite HstepA.
  - cbn [run]. now rewrite HstepB.
  - rewrite HpR', <- Hp12, <- HpA.
    pose proof (outcome_not_loading r (published s12)) as Hl.
    rewrite <- HpA in Hl. unfold published in *. cbn in Hl.
    now rewrite HmA, HlA, HeA, Hl.
  - rewrite HpB, HpR'. unfold published.
    rewrite HmB, HlB, HeB.
    injection Hp12 as -> _ ->. apply outcome_loading.
Qed.

Lemma superseded_abort_is_discarded_witness :
  exists s12 sA sB sRef,
    run initial [Render "bat"; Render "sup"] = Some s12 /\
    aborted <$> controllers s12 !! 0 = Some true /\
    run s12 (deliver 1 (Answer ok_200 (Fulfilled sup_body)) ++
             [FetchSettled 0 (Rejected (AbortError "The user aborted a request."))])
    = Some sA /\
    run s12 (FetchSettled 0 (Rejected (AbortError "The user aborted a request."))
             :: deliver 1 (Answer ok_200 (Fulfilled sup_body)))
    = Some sB /\
    run (commit "sup" initial) (deliver 0 (Answer ok_200 (Fulfilled sup_body)))
    = Some sRef /\
    published sA = published sRef /\
    published sB = published sRef.
Proof.
  apply (superseded_abort_is_discarded initial "bat" "sup"
           (Answer ok_200 (Fulfilled sup_body))
           (AbortError "The user aborted a request."));
    [reflexivity | discriminate | discriminate | cbn; lia | cbn; lia
    | reflexivity].
Defined.

(** ** The request *)

Lemma urlencoded_unreserved q : all_unreserved q = true -> urlencoded q = q.
Proof.
  induction q as [|c q IH]; [done|]. cbn [all_unreserved urlencoded].
  intros [Hc Hq]%andb_true_iff. rewrite Hc, IH by done. reflexivity.
Qed.

Lemma append_inj_prefix p a b : p +:+ a = p +:+ b -> a = b.
Proof.
  induction p as [|c p IH]; [done|].
  change (String c p +:+ a) with (String c (p +:+ a)).
  change (String c p +:+ b) with (String c (p +:+ b)).
  intros [= H]. auto.
Qed.

Lemma append_cons a p n : String a p +:+ n = String a (p +:+ n).
Proof. reflexivity. Qed.

Lemma append_nil n : "" +:+ n = n.
Proof. reflexivity. Qed.

Lemma urlencoded_length q : String.length q <= String.length (urlencoded q).
Proof.
  induction q as [|c q IH]; [done|]. cbn [urlencoded].
  destruct (unreserved c); unfold percent_encoded;
    rewrite ?append_cons, ?append_nil; cbn [String.length]; lia.
Qed.

(** The URL-encoded form of a query is the query itself exactly when no
    character of it needs encoding. *)
Lemma urlencoded_fixed q : urlencoded q = q <-> all_unreserved q = true.
Proof.
  split; [|apply urlencoded_unreserved].
  induction q as [|c q IH]; [done|]. cbn [urlencoded all_unreserved].
  destruct (unreserved c) eqn:Hc.
  - rewrite append_cons, append_nil. intros [= H]. auto.
  - unfold percent_encoded. rewrite !append_cons, append_nil.
    intros [= _ H]. exfalso.
    pose proof (urlencoded_length q) as Hl.
    apply (f_equal String.length) in H. cbn [String.length] in H. lia.
Qed.

(** C8, as the spec states it, fails: the query is spliced into the URL as
    it is.  For ["tom&jerry"] the request goes to a URL that ends in
    [s=tom&jerry], where the URL-encoded query is ["tom%26jerry"]; the [&]
    is a separator no URL parser escapes. *)
Lemma query_is_not_urlencoded :
  3 <= js_length "tom&jerry" /\
  network <$> step initial (Render "tom&jerry")
  = Some [{| method := "GET";
             url := "http://www.omdbapi.com/?apikey=b0237cb1&&s=tom&jerry";
             signal := 0 |}] /\
  urlencoded "tom&jerry" = "tom%26jerry" /\
  request_url "tom&jerry"
  <> "http://www.omdbapi.com/?apikey=b0237cb1&&s=" +:+ urlencoded "tom&jerry".
Proof. split_and!; try reflexivity; [cbn; lia | discriminate]. Qed.

(** C8, amended: an effect that passes the length gate calls [fetch] once,
    a GET to the search endpoint with the fixed key as [apikey] and the
    query spliced in as it is after [s=]; the hook encodes nothing.  What
    follows [s=] is the URL-encoded form of the query exactly when the
    query is made of unreserved characters only. *)
Theorem request_carries_raw_query s q :
  mounted s = true ->
  query s <> Some q ->
  3 <= js_length q ->
  exists s',
    step s (Render q) = Some s' /\
    network s' =
      (network s ++
         [{| method := "GET";
             url := "http://www.omdbapi.com/?apikey=b0237cb1&&s=" +:+ q;
             signal := length (controllers s) |}])%list /\
    ("http://www.omdbapi.com/?apikey=b0237cb1&&s=" +:+ q
     = "http://www.omdbapi.com/?apikey=b0237cb1&&s=" +:+ urlencoded q
     <-> all_unreserved q = true).
Proof.
  intros Hm Hq Hlen. exists (commit q s). split_and!.
  - cbn. rewrite Hm. now rewrite render_changed.
  - destruct (run_cleanup_fields s) as (_&_&_&Hn&_&_&Hl).
    rewrite commit_fetch by done. cbn. now rewrite Hn, Hl.
  - rewrite <- urlencoded_fixed. split.
    + intros H%append_inj_prefix. done.
    + now intros ->.
Qed.

Lemma request_carries_raw_query_witness :
  exists s',
    step initial (Render "bat") = Some s' /\
    network s' =
      (network initial ++
         [{| method := "GET";
             url := "http://www.omdbapi.com/?apikey=b0237cb1&&s=" +:+ "bat";
             signal := length (controllers initial) |}])%list /\
    ("http://www.omdbapi.com/?apikey=b0237cb1&&s=" +:+ "bat"
     = "http://www.omdbapi.com/?apikey=b0237cb1&&s=" +:+ urlencoded "bat"
     <-> all_unreserved "bat" = true).
Proof.
  apply (request_carries_raw_query initial "bat");
    [reflexivity | discriminate | cbn; lia].
Defined.

(** ** More on renders and settled promises *)

Lemma commit_controllers s q :
  controllers (commit q s) =
    (controllers (run_cleanup s) ++
       [{| aborted := false;
           stage := if (js_length q <? 3)%nat then NotCalled
                    else AwaitFetch |}])%list.
Proof.
  destruct (Nat.ltb_spec (js_length q) 3).
  - now rewrite commit_gate.
  - now rewrite commit_fetch.
Qed.

Lemma commit_network s q :
  network (commit q s) =
    if (js_length q <? 3)%nat then network s
    else (network s ++
            [{| method := "GET"; url := request_url q;
                signal := length (controllers s) |}])%list.
Proof.
  destruct (run_cleanup_fields s) as (_&_&_&Hn&_&_&Hl).
  destruct (Nat.ltb_spec (js_length q) 3).
  - now rewrite commit_gate.
  - rewrite commit_fetch by done. cbn. now rewrite Hn, Hl.
Qed.

Lemma commit_console s q : console (commit q s) = console s.
Proof.
  destruct (run_cleanup_fields s) as (_&_&_&_&Hc&_).
  destruct (le_lt_dec 3 (js_length q)).
  - now rewrite commit_fetch.
  - now rewrite commit_gate.
Qed.

Lemma commit_cleanup_cases s q :
  cleanup (commit q s) =
    if (js_length q <? 3)%nat then None
    else Some (length (controllers s)).
Proof.
  destruct (Nat.ltb_spec (js_length q) 3).
  - now rewrite commit_gate.
  - now apply commit_cleanup.
Qed.

Lemma run_cleanup_aborted s c :
  aborted_of (run_cleanup s) c =
    if decide (cleanup s = Some c) then (fun _ => true) <$> aborted_of s c
    else aborted_of s c.
Proof.
  unfold run_cleanup, abort, aborted_of.
  destruct (cleanup s) as [k|]; [|now rewrite decide_False]. cbn.
  destruct (controllers s !! k) as [a|] eqn:E; cbn.
  - destruct (decide (Some k = Some c)) as [[= ->]|Hne].
    + rewrite list_lookup_insert_eq by (eapply lookup_lt_Some; eauto).
      now rewrite E.
    + rewrite list_lookup_insert_ne by congruence. done.
  - destruct (decide (Some k = Some c)) as [[= ->]|Hne]; [|done].
    now rewrite E.
Qed.

Lemma aborted_of_set_stage c p s c' :
  aborted_of (set_stage c p s) c' = aborted_of s c'.
Proof.
  unfold aborted_of, set_stage.
  destruct (controllers s !! c) as [a|] eqn:E; [|done]. cbn.
  destruct (decide (c = c')) as [->|Hne].
  - rewrite list_lookup_insert_eq by (eapply lookup_lt_Some; eauto).
    now rewrite E.
  - now rewrite list_lookup_insert_ne.
Qed.

Lemma commit_aborted_old s q c :
  c < length (controllers s) ->
  aborted_of (commit q s) c = aborted_of (run_cleanup s) c.
Proof.
  intros Hc. destruct (run_cleanup_fields s) as (_&_&_&_&_&_&Hl).
  unfold aborted_of. rewrite commit_controllers.
  now rewrite lookup_app_l by lia.
Qed.

Lemma commit_aborted_new s q :
  aborted_of (commit q s) (length (controllers s)) = Some false.
Proof.
  destruct (run_cleanup_fields s) as (_&_&_&_&_&_&Hl).
  unfold aborted_of. rewrite commit_controllers.
  rewrite lookup_app_r by lia. now replace (_ - _) with 0 by lia.
Qed.

(** The shape of every step that settles a promise of invocation [c]: the
    invocation was outstanding, the state cells go through one of three
    updates, and only the stage of [c] is rewritten. *)
Lemma settle_shape s ev s' c :
  step s ev = Some s' -> settles c ev = true ->
  exists p P X,
    stage_of s c = Some p /\ outstanding p = true /\ called P = true /\
    s' = set_stage c P X /\
    (X = s \/ (exists e, X = caught e s) \/ (exists v, X = stored v s)).
Proof.
  intros Hstep Hset.
  destruct ev as [q| |c' p|c' p]; cbn in Hset; try discriminate;
    apply bool_decide_eq_true in Hset; subst c'; cbn in Hstep;
    destruct (stage_of s c) as [[]|] eqn:Hc; try discriminate;
    injection Hstep as <-.
  - exists AwaitFetch. rewrite after_fetch_state.
    destruct p as [res|e]; [destruct (ok res)|].
    + exists AwaitJson, s. split_and!; auto.
    + exists Finished, (caught (Error (http_error_message res)) s).
      split_and!; eauto.
    + exists Finished, (caught e s). split_and!; eauto.
  - exists AwaitJson. rewrite after_json_state.
    destruct p as [data|e];
      [destruct (get_property data "Response") as [answer|];
       [destruct (strict_eq_string answer "False")|]|].
    + exists Finished, (caught (Error "Movie not found!") s).
      split_and!; eauto.
    + exists Finished,
        (stored (default VUndefined (get_property data "Search")) s).
      split_and!; eauto.
    + exists Finished, (caught (TypeError (null_read_message "Response")) s).
      split_and!; eauto.
    + exists Finished, (caught e s). split_and!; eauto.
Qed.

Lemma cells_controllers s X :
  X = s \/ (exists e, X = caught e s) \/ (exists v, X = stored v s) ->
  controllers X = controllers s /\ same_host s X.
Proof.
  intros [->|[[e ->]|[v ->]]].
  - unfold same_host. tauto.
  - split; [|apply caught_same_host].
    unfold caught. now destruct (String.eqb (name e) "AbortError").
  - unfold same_host. now cbn.
Qed.

(** Settling a promise of [c] touches no other invocation, no controller's
    signal, no request and no cleanup. *)
Lemma settle_frame s ev s' c :
  step s ev = Some s' -> settles c ev = true ->
  (exists p p', stage_of s c = Some p /\ outstanding p = true /\
                stage_of s' c = Some p' /\ called p' = true) /\
  (forall c', c' <> c -> stage_of s' c' = stage_of s c') /\
  (forall c', aborted_of s' c' = aborted_of s c') /\
  same_host s s'.
Proof.
  intros Hstep Hset.
  destruct (settle_shape s ev s' c Hstep Hset)
    as (p & P & X & Hc & Ho & HP & -> & HX).
  destruct (cells_controllers s X HX) as (Hcs & Hh).
  assert (Hst : forall k, stage_of X k = stage_of s k)
    by (intros k; unfold stage_of; now rewrite Hcs).
  split_and!.
  - exists p, P. split_and!; try done.
    eapply stage_of_set_stage_eq. rewrite Hst. eauto.
  - intros c' Hne. now rewrite stage_of_set_stage_ne.
  - intros c'. rewrite aborted_of_set_stage. unfold aborted_of.
    now rewrite Hcs.
  - eapply same_host_trans; [apply Hh | apply set_stage_same_host].
Qed.

(** ** At most one live controller *)

Lemma outstanding_called p : outstanding p = true -> called p = true.
Proof. now destruct p. Qed.

Lemma stage_of_ge s c : length (controllers s) <= c -> stage_of s c = None.
Proof. intros H. unfold stage_of. now rewrite lookup_ge_None_2. Qed.

Lemma aborted_of_lt s c b : aborted_of s c = Some b -> c < length (controllers s).
Proof.
  unfold aborted_of. intros H.
  destruct (controllers s !! c) as [a|] eqn:E; [|discriminate].
  eapply lookup_lt_Some; eauto.
Qed.

(** Once the cleanup has run, no controller is live any more. *)
Lemma cleanup_kills s c :
  live_invariant s ->
  aborted_of (run_cleanup s) c = Some false ->
  forall p, stage_of s c = Some p -> called p = false.
Proof.
  intros [Ha Hb] Hab p Hp. rewrite run_cleanup_aborted in Hab.
  destruct (decide (cleanup s = Some c)) as [Hc|Hc].
  - destruct (aborted_of s c); discriminate.
  - destruct (called p) eqn:E; [|done].
    exfalso. apply Hc, Ha. split; eauto.
Qed.

Lemma cleanup_spares_gated s c :
  live_invariant s ->
  stage_of s c = Some NotCalled -> aborted_of (run_cleanup s) c = Some false.
Proof.
  intros [Ha Hb] Hp. rewrite run_cleanup_aborted.
  destruct (decide (cleanup s = Some c)) as [Hc|Hc]; [|auto].
  apply Ha in Hc. destruct Hc as (_ & p & Hp' & Hcalled).
  rewrite Hp in Hp'. injection Hp' as <-. discriminate.
Qed.

Lemma live_commit s q : live_invariant s -> live_invariant (commit q s).
Proof.
  intros Hinv. set (n := length (controllers s)).
  pose proof (commit_stage_new s q) as Hn.
  pose proof (commit_aborted_new s q) as Han.
  pose proof (commit_cleanup_cases s q) as Hcl.
  pose proof (commit_length s q) as Hlen.
  fold n in Hn, Han, Hcl, Hlen.
  split.
  - intros c. split.
    + intros (Hab & p & Hp & Hcalled).
      destruct (lt_eq_lt_dec c n) as [[Hlt| ->]|Hgt].
      * rewrite commit_stage_old in Hp by done.
        rewrite commit_aborted_old in Hab by done.
        rewrite (cleanup_kills s c Hinv Hab p Hp) in Hcalled. discriminate.
      * rewrite Hn in Hp. injection Hp as <-.
        destruct (js_length q <? 3)%nat; [discriminate|done].
      * rewrite stage_of_ge in Hp by lia. discriminate.
    + intros Hc. rewrite Hcl in Hc.
      destruct (js_length q <? 3)%nat; [discriminate|].
      injection Hc as <-. split; eauto.
  - intros c Hp.
    destruct (lt_eq_lt_dec c n) as [[Hlt| ->]|Hgt].
    + rewrite commit_stage_old in Hp by done.
      rewrite commit_aborted_old by done. now apply cleanup_spares_gated.
    + done.
    + rewrite stage_of_ge in Hp by lia. discriminate.
Qed.

Lemma live_detach s : live_invariant s -> live_invariant (detach s).
Proof.
  intros Hinv. split.
  - intros c. split; [|discriminate].
    intros (Hab & p & Hp & Hcalled).
    change (aborted_of (run_cleanup s) c = Some false) in Hab.
    change (stage_of (run_cleanup s) c = Some p) in Hp.
    rewrite run_cleanup_stage in Hp.
    rewrite (cleanup_kills s c Hinv Hab p Hp) in Hcalled. discriminate.
  - intros c Hp.
    change (stage_of (run_cleanup s) c = Some NotCalled) in Hp.
    rewrite run_cleanup_stage in Hp.
    change (aborted_of (run_cleanup s) c = Some false).
    now apply cleanup_spares_gated.
Qed.

Lemma live_settle s ev s' c :
  step s ev = Some s' -> settles c ev = true ->
  live_invariant s -> live_invariant s'.
Proof.
  intros Hstep Hset [Ha Hb].
  destruct (settle_frame s ev s' c Hstep Hset)
    as ((p & p' & Hp & Ho & Hp' & Hc') & Hst & Hab & (_ & Hcl & _)).
  assert (Hlive : forall k, live s' k <-> live s k).
  { intros k. unfold live. rewrite Hab.
    destruct (decide (k = c)) as [->|Hne].
    - rewrite Hp, Hp'. split; intros (? & _); (split; [done|]).
      + exists p. auto using outstanding_called.
      + eauto.
    - now rewrite Hst. }
  split.
  - intros k. now rewrite Hlive, Hcl.
  - intros k Hk. rewrite Hab.
    destruct (decide (k = c)) as [->|Hne].
    + rewrite Hp' in Hk. injection Hk as ->. discriminate.
    + rewrite Hst in Hk by done. auto.
Qed.

Lemma live_reachable s : reachable s -> live_invariant s.
Proof.
  induction 1 as [|s ev s' _ IH Hstep].
  - split.
    + intros c. split; [|discriminate]. now intros (H & _).
    + intros c. discriminate.
  - destruct ev as [q| |c p|c p].
    + cbn in Hstep. destruct (mounted s); [|discriminate].
      injection Hstep as <-. unfold render.
      destruct (decide (query s = Some q)); [done|]. now apply live_commit.
    + cbn in Hstep. destruct (mounted s); [|discriminate].
      injection Hstep as <-. now apply live_detach.
    + eapply (live_settle s _ s' c); eauto. cbn. now apply bool_decide_eq_true.
    + eapply (live_settle s _ s' c); eauto. cbn. now apply bool_decide_eq_true.
Qed.

(** X2: in every reachable state the controllers that are live, called
    and not aborted, are exactly the one the pending cleanup will abort: so
    there is at most one, and none after an effect that stopped at the
    length gate.  A controller whose effect stopped at the gate is never
    aborted. *)
Theorem at_most_one_live s :
  reachable s ->
  (forall c, live s c <-> cleanup s = Some c) /\
  (forall c1 c2, live s c1 -> live s c2 -> c1 = c2) /\
  (forall c, stage_of s c = Some NotCalled -> aborted_of s c = Some false).
Proof.
  intros Hr. destruct (live_reachable s Hr) as [Ha Hb].
  split_and!; try done.
  intros c1 c2 H1%Ha H2%Ha. congruence.
Qed.

Lemma reachable_pending : reachable bat_pending /\ reachable sup_pending.
Proof.
  assert (H : reachable bat_pending)
    by (apply (reachable_step initial (Render "bat"));
        [constructor | reflexivity]).
  split; [done|].
  now apply (reachable_step bat_pending (Render "sup")).
Qed.

Lemma at_most_one_live_witness :
  (forall c, live sup_pending c <-> cleanup sup_pending = Some c) /\
  (forall c1 c2, live sup_pending c1 -> live sup_pending c2 -> c1 = c2) /\
  (forall c, stage_of sup_pending c = Some NotCalled ->
             aborted_of sup_pending c = Some false).
Proof. apply (at_most_one_live sup_pending), reachable_pending. Defined.

(** X3: when the consumer unmounts, the pending cleanup aborts the
    current controller: afterwards no controller is live, while the
    published triple, the requests sent and the console are as before. *)
Theorem detach_leaves_nothing_live s :
  reachable s -> mounted s = true ->
  exists s',
    step s Detach = Some s' /\
    (forall c, ~ live s' c) /\
    (forall c, cleanup s = Some c -> aborted_of s' c = Some true) /\
    published s' = published s /\
    network s' = network s /\ console s' = console s.
Proof.
  intros Hr Hm. exists (detach s).
  assert (Hstep : step s Detach = Some (detach s)) by (cbn; now rewrite Hm).
  destruct (live_reachable s Hr) as [Ha _].
  destruct (live_reachable _ (reachable_step _ _ _ Hr Hstep)) as [Ha' _].
  destruct (run_cleanup_fields s) as (Hp & _ & _ & Hn & Hc & _).
  split_and!; try done.
  - intros c Hl. apply Ha' in Hl. discriminate.
  - intros c Hc'. change (aborted_of (run_cleanup s) c = Some true).
    rewrite run_cleanup_aborted, decide_True by done.
    apply Ha in Hc'. destruct Hc' as (-> & _). done.
Qed.

Lemma detach_leaves_nothing_live_witness :
  exists s',
    step bat_pending Detach = Some s' /\
    (forall c, ~ live s' c) /\
    (forall c, cleanup bat_pending = Some c -> aborted_of s' c = Some true) /\
    published s' = published bat_pending /\
    network s' = network bat_pending /\ console s' = console bat_pending.
Proof.
  apply (detach_leaves_nothing_live bat_pending);
    [apply reachable_pending | reflexivity].
Defined.

(** ** Requests and controllers *)

Lemma no_request_yet (l : list request) n :
  Forall (fun r => signal r < n) l -> filter (fun r => signal r = n) l = [].
Proof.
  induction 1 as [|r l Hr _ IH]; [done|].
  rewrite filter_cons_False by lia. done.
Qed.

Lemma code_units_le b q : code_units b q <= String.length q.
Proof.
  revert b. induction q as [|c q IH]; intros b; [done|].
  cbn [code_units String.length].
  destruct (classify c); try destruct b;
    try pose proof (IH false); try pose proof (IH true); lia.
Qed.

Lemma js_length_le q : js_length q <= String.length q.
Proof. apply code_units_le. Qed.

Lemma gated_request_more s s' r :
  length (controllers s) <= length (controllers s') ->
  gated_request s r -> gated_request s' r.
Proof. intros Hl (Hm & Hs & Hq). split_and!; [done|lia|done]. Qed.

Lemma requests_commit s q :
  requests_accounted s -> requests_accounted (commit q s).
Proof.
  intros [Hall Hcount]. set (n := length (controllers s)).
  pose proof (commit_stage_new s q) as Hn.
  pose proof (commit_network s q) as Hnet.
  pose proof (commit_length s q) as Hlen.
  fold n in Hn, Hnet, Hlen.
  assert (Hold : Forall (gated_request (commit q s)) (network s)).
  { eapply Forall_impl; [exact Hall|]. intros r.
    apply gated_request_more. lia. }
  assert (Hnone : filter (fun r => signal r = n) (network s) = []).
  { apply no_request_yet. eapply Forall_impl; [exact Hall|].
    now intros r (_ & Hs & _). }
  split.
  - rewrite Hnet. destruct (Nat.ltb_spec (js_length q) 3); [done|].
    apply Forall_app. split; [done|]. constructor; [|constructor].
    split_and!; cbn; [done|lia|].
    exists q. pose proof (js_length_le q). split_and!; [done|lia|done].
  - intros c p Hp. unfold requests_for. rewrite Hnet.
    destruct (lt_eq_lt_dec c n) as [[Hlt| ->]|Hgt].
    + rewrite commit_stage_old in Hp by done.
      specialize (Hcount c p Hp). unfold requests_for in Hcount.
      destruct (js_length q <? 3)%nat; [done|].
      rewrite filter_app, filter_cons_False by (cbn; lia).
      rewrite filter_nil, app_nil_r. done.
    + rewrite Hn in Hp. injection Hp as <-.
      destruct (js_length q <? 3)%nat; [now rewrite Hnone|].
      rewrite filter_app, Hnone, filter_cons_True by done. done.
    + rewrite stage_of_ge in Hp by lia. discriminate.
Qed.

Lemma requests_detach s : requests_accounted s -> requests_accounted (detach s).
Proof.
  intros [Hall Hcount].
  destruct (run_cleanup_fields s) as (_ & _ & _ & Hn & _ & _ & Hl).
  split.
  - change (network (detach s)) with (network (run_cleanup s)). rewrite Hn.
    eapply Forall_impl; [exact Hall|]. intros r.
    apply gated_request_more.
    change (controllers (detach s)) with (controllers (run_cleanup s)). lia.
  - intros c p Hp.
    change (stage_of (run_cleanup s) c = Some p) in Hp.
    rewrite run_cleanup_stage in Hp.
    unfold requests_for.
    change (network (detach s)) with (network (run_cleanup s)). rewrite Hn.
    now apply Hcount.
Qed.

Lemma requests_settle s ev s' c :
  step s ev = Some s' -> settles c ev = true ->
  requests_accounted s -> requests_accounted s'.
Proof.
  intros Hstep Hset [Hall Hcount].
  destruct (settle_frame s ev s' c Hstep Hset)
    as ((p & p' & Hp & Ho & Hp' & Hc') & Hst & _ & (_ & _ & _ & Hn & _ & Hl)).
  split.
  - rewrite Hn. eapply Forall_impl; [exact Hall|]. intros r.
    apply gated_request_more. lia.
  - intros k pk Hk. unfold requests_for. rewrite Hn.
    destruct (decide (k = c)) as [->|Hne].
    + rewrite Hp' in Hk. injection Hk as <-. rewrite Hc'.
      specialize (Hcount c p Hp). now rewrite (outstanding_called p Ho) in Hcount.
    + rewrite Hst in Hk by done. now apply Hcount.
Qed.

Lemma requests_reachable s : reachable s -> requests_accounted s.
Proof.
  induction 1 as [|s ev s' _ IH Hstep].
  - split; [constructor|]. intros c p. discriminate.
  - destruct ev as [q| |c p|c p].
    + cbn in Hstep. destruct (mounted s); [|discriminate].
      injection Hstep as <-. unfold render.
      destruct (decide (query s = Some q)); [done|]. now apply requests_commit.
    + cbn in Hstep. destruct (mounted s); [|discriminate].
      injection Hstep as <-. now apply requests_detach.
    + eapply (requests_settle s _ s' c); eauto. cbn. now apply bool_decide_eq_true.
    + eapply (requests_settle s _ s' c); eauto. cbn. now apply bool_decide_eq_true.
Qed.

(** X4: in every reachable state each call of [fetch] is a GET to the URL
    built from a query of [length] three or more, under the signal of an
    existing controller; a controller whose effect called [fetchMovies] has
    exactly one request, and one whose effect stopped at the gate has
    none. *)
Theorem one_request_per_attempt s :
  reachable s ->
  Forall (gated_request s) (network s) /\
  (forall c p, stage_of s c = Some p ->
     length (requests_for c s) = if called p then 1 else 0).
Proof. apply requests_reachable. Qed.

Lemma one_request_per_attempt_witness :
  Forall (gated_request sup_pending) (network sup_pending) /\
  (forall c p, stage_of sup_pending c = Some p ->
     length (requests_for c sup_pending) = if called p then 1 else 0).
Proof. apply (one_request_per_attempt sup_pending), reachable_pending. Defined.

(** ** The error and the console *)

Lemma error_logged_cells s X :
  X = s \/ (exists e, X = caught e s) \/ (exists v, X = stored v s) ->
  error_logged s -> error_logged X.
Proof.
  unfold error_logged. intros [->|[[e ->]|[v ->]]] H; [done| |now left].
  unfold caught. destruct (String.eqb (name e) "AbortError"); [done|].
  right. cbn. apply last_snoc.
Qed.

Lemma error_logged_reachable s : reachable s -> error_logged s.
Proof.
  induction 1 as [|s ev s' _ IH Hstep]; [now left|].
  destruct ev as [q| |c p|c p].
  - cbn in Hstep. destruct (mounted s); [|discriminate].
    injection Hstep as <-. unfold render.
    destruct (decide (query s = Some q)); [done|]. left.
    pose proof (commit_published s q) as Hp.
    destruct (js_length q <? 3)%nat; now injection Hp.
  - cbn in Hstep. destruct (mounted s); [|discriminate].
    injection Hstep as <-.
    destruct (run_cleanup_fields s) as (Hp & _ & _ & _ & Hc & _).
    injection Hp as _ _ He. unfold error_logged.
    change (error (detach s)) with (error (run_cleanup s)).
    change (console (detach s)) with (console (run_cleanup s)).
    now rewrite He, Hc.
  - assert (Hset : settles c (FetchSettled c p) = true)
      by (cbn; now apply bool_decide_eq_true).
    destruct (settle_shape s _ s' c Hstep Hset) as (?&P&X&_&_&_&->&HX).
    pose proof (error_logged_cells s X HX IH) as H.
    unfold error_logged in *.
    destruct (set_stage_fields c P X) as (_&_&->&_&_&_&_&->&_). done.
  - assert (Hset : settles c (JsonSettled c p) = true)
      by (cbn; now apply bool_decide_eq_true).
    destruct (settle_shape s _ s' c Hstep Hset) as (?&P&X&_&_&_&->&HX).
    pose proof (error_logged_cells s X HX IH) as H.
    unfold error_logged in *.
    destruct (set_stage_fields c P X) as (_&_&->&_&_&_&_&->&_). done.
Qed.

(** X5: in every reachable state a non-empty [error] is the last line
    written to the console: the hook shows no error it has not logged, and
    no step removes a line from the console. *)
Theorem shown_error_was_logged s :
  reachable s ->
  (error s = "" \/ last (console s) = Some (error s)) /\
  (forall ev s', step s ev = Some s' ->
     exists more, console s' = (console s ++ more)%list).
Proof.
  intros Hr. split; [now apply error_logged_reachable|].
  intros ev s' Hstep. destruct ev as [q| |c p|c p].
  - cbn in Hstep. destruct (mounted s); [|discriminate].
    injection Hstep as <-. exists []. rewrite app_nil_r. unfold render.
    destruct (decide (query s = Some q)); [done|]. apply commit_console.
  - cbn in Hstep. destruct (mounted s); [|discriminate].
    injection Hstep as <-. exists []. rewrite app_nil_r.
    apply run_cleanup_fields.
  - assert (Hset : settles c (FetchSettled c p) = true)
      by (cbn; now apply bool_decide_eq_true).
    destruct (settle_shape s _ s' c Hstep Hset) as (?&P&X&_&_&_&->&HX).
    rewrite set_stage_console.
    destruct HX as [->|[[e ->]|[v ->]]].
    + exists []. now rewrite app_nil_r.
    + rewrite caught_console. destruct (String.eqb (name e) "AbortError").
      * exists []. now rewrite app_nil_r.
      * eauto.
    + exists []. now rewrite app_nil_r.
  - assert (Hset : settles c (JsonSettled c p) = true)
      by (cbn; now apply bool_decide_eq_true).
    destruct (settle_shape s _ s' c Hstep Hset) as (?&P&X&_&_&_&->&HX).
    rewrite set_stage_console.
    destruct HX as [->|[[e ->]|[v ->]]].
    + exists []. now rewrite app_nil_r.
    + rewrite caught_console. destruct (String.eqb (name e) "AbortError").
      * exists []. now rewrite app_nil_r.
      * eauto.
    + exists []. now rewrite app_nil_r.
Qed.

Lemma shown_error_was_logged_witness :
  (error bat_failed = "" \/
   last (console bat_failed) = Some (error bat_failed)) /\
  (forall ev s', step bat_failed ev = Some s' ->
     exists more, console s' = (console bat_failed ++ more)%list).
Proof.
  apply (shown_error_was_logged bat_failed).
  apply (reachable_step bat_pending (FetchSettled 0 (Fulfilled not_found_404)));
    [apply reachable_pending | reflexivity].
Defined.

(** ** Where the gate lies *)

(** X1: a render that changes the query of a mounted hook runs the effect
    once: it always creates one controller, and it calls [fetch] exactly
    when [query.length] is three or more, once, with the URL of that query
    under the new controller's signal. *)
Theorem request_iff_three_characters s q :
  mounted s = true -> query s <> Some q ->
  exists s',
    step s (Render q) = Some s' /\
    length (controllers s') = S (length (controllers s)) /\
    (network s' = network s <-> js_length q < 3) /\
    (network s' =
       (network s ++ [{| method := "GET"; url := request_url q;
                         signal := length (controllers s) |}])%list
     <-> 3 <= js_length q).
Proof.
  intros Hm Hq. exists (commit q s).
  pose proof (commit_network s q) as Hn.
  split_and!.
  - cbn. rewrite Hm. now rewrite render_changed.
  - apply commit_length.
  - rewrite Hn. destruct (Nat.ltb_spec (js_length q) 3) as [H|H].
    + tauto.
    + split; [|lia]. intros E. apply (f_equal length) in E.
      rewrite length_app in E. cbn in E. lia.
  - rewrite Hn. destruct (Nat.ltb_spec (js_length q) 3) as [H|H].
    + split; [|lia]. intros E. apply (f_equal length) in E.
      rewrite length_app in E. cbn in E. lia.
    + tauto.
Qed.

Lemma request_iff_three_characters_witness :
  exists s',
    step bat_pending (Render "su") = Some s' /\
    length (controllers s') = S (length (controllers bat_pending)) /\
    (network s' = network bat_pending <-> js_length "su" < 3) /\
    (network s' =
       (network bat_pending ++
          [{| method := "GET"; url := request_url "su";
              signal := length (controllers bat_pending) |}])%list
     <-> 3 <= js_length "su").
Proof.
  apply (request_iff_three_characters bat_pending "su");
    [reflexivity | discriminate].
Defined.

(** ** Two renders in a row *)

Lemma two_renders s q1 q2 :
  mounted s = true -> query s <> Some q1 -> q1 <> q2 ->
  3 <= js_length q1 ->
  run s [Render q1; Render q2] = Some (commit q2 (commit q1 s)) /\
  stage_of (commit q2 (commit q1 s)) (length (controllers s))
  = Some AwaitFetch /\
  aborted_of (commit q2 (commit q1 s)) (length (controllers s)) = Some true /\
  published (commit q2 (commit q1 s)) =
    (if (js_length q2 <? 3)%nat then (VArr [], true, "")
     else (movies s, true, "")).
Proof.
  intros Hm Hq1 Hne Hl1.
  set (s1 := commit q1 s).
  assert (Hlen1 : length (controllers s1) = S (length (controllers s)))
    by apply commit_length.
  assert (Hp1 : published s1 = (movies s, true, "")).
  { unfold s1. rewrite commit_published.
    destruct (Nat.ltb_spec (js_length q1) 3); [lia|done]. }
  split_and!.
  - cbn. rewrite Hm, render_changed by done. fold s1.
    unfold s1 at 1. rewrite commit_mounted, Hm.
    rewrite render_changed; [done|].
    unfold s1. rewrite commit_query. congruence.
  - rewrite commit_stage_old by lia. unfold s1. rewrite commit_stage_new.
    destruct (Nat.ltb_spec (js_length q1) 3); [lia|done].
  - apply commit_aborts; [|lia]. unfold s1. now apply commit_cleanup.
  - rewrite commit_published. injection Hp1 as -> -> _. done.
Qed.

Lemma abort_rejection_state s c e :
  stage_of s c = Some AwaitFetch -> name e = "AbortError" ->
  exists s', step s (FetchSettled c (Rejected e)) = Some s' /\
    published s' = (movies s, false, error s) /\
    console s' = console s /\
    stage_of s' c = Some Finished /\
    (forall c', c' <> c -> stage_of s' c' = stage_of s c') /\
    (forall c', aborted_of s' c' = aborted_of s c') /\
    same_host s s'.
Proof.
  intros Hc Hn.
  assert (Hset : settles c (FetchSettled c (Rejected e)) = true)
    by (cbn; now apply bool_decide_eq_true).
  pose proof (step_fetch_rejected s c e Hc) as Hstep.
  destruct (settle_frame s _ _ c Hstep Hset) as (_ & Hst & Hab & Hh).
  destruct (finished_by_catch c e s _ Hc) as (Hp & Hlog & Hf & _).
  apply String.eqb_eq in Hn. rewrite Hn in Hlog.
  unfold failed, published in Hp. rewrite Hn in Hp.
  eexists. split; [exact Hstep|]. now split_and!.
Qed.

(** X6: a fetch-triggering query replaced by one whose [length] is below
    three while its request is out: once the aborted [fetch] has
    rejected with an [AbortError], the hook publishes the gate's triple,
    empty [movies], [isLoading] false and empty [error]; nothing is logged
    and the only request sent is the first query's. *)
Theorem short_query_after_pending_fetch s q1 q2 e :
  mounted s = true -> query s <> Some q1 ->
  3 <= js_length q1 -> js_length q2 < 3 ->
  name e = "AbortError" ->
  exists s',
    run s [Render q1; Render q2;
           FetchSettled (length (controllers s)) (Rejected e)] = Some s' /\
    published s' = (VArr [], false, "") /\
    console s' = console s /\
    network s' =
      (network s ++ [{| method := "GET"; url := request_url q1;
                        signal := length (controllers s) |}])%list /\
    stage_of s' (length (controllers s)) = Some Finished.
Proof.
  intros Hm Hq1 Hl1 Hl2 Hn.
  assert (Hne : q1 <> q2) by (intros ->; lia).
  destruct (two_renders s q1 q2 Hm Hq1 Hne Hl1) as (Hrun & Hst & _ & Hp).
  destruct (Nat.ltb_spec (js_length q2) 3) as [_|?]; [|lia].
  destruct (abort_rejection_state _ _ e Hst Hn)
    as (s' & Hstep & Hp' & Hc' & Hf & _ & _ & (_&_&_&Hnet&_)).
  exists s'. split_and!; try done.
  - change (run s ([Render q1; Render q2] ++
                   [FetchSettled (length (controllers s)) (Rejected e)])
            = Some s').
    rewrite run_app, Hrun. cbn [mbind option_bind run]. now rewrite Hstep.
  - rewrite Hp'. now injection Hp as -> _ ->.
  - now rewrite Hc', !commit_console.
  - rewrite Hnet, !commit_network.
    destruct (Nat.ltb_spec (js_length q2) 3); [|lia].
    destruct (Nat.ltb_spec (js_length q1) 3); [lia|done].
Qed.

Lemma short_query_after_pending_fetch_witness :
  exists s',
    run initial [Render "bat"; Render "su";
                 FetchSettled (length (controllers initial))
                   (Rejected (AbortError "The user aborted a request."))]
    = Some s' /\
    published s' = (VArr [], false, "") /\
    console s' = console initial /\
    network s' =
      (network initial ++
         [{| method := "GET"; url := request_url "bat";
             signal := length (controllers initial) |}])%list /\
    stage_of s' (length (controllers initial)) = Some Finished.
Proof.
  apply (short_query_after_pending_fetch initial "bat" "su"
           (AbortError "The user aborted a request."));
    [reflexivity | discriminate | cbn; lia | cbn; lia | reflexivity].
Defined.

(** X7: a fetch-triggering query replaced by another while its request is
    out: when the aborted [fetch] rejects, its [finally] sets [isLoading]
    to false although the newer request is still out, live and awaiting
    its response. *)
Theorem loading_flag_drops_early s q1 q2 e :
  mounted s = true -> query s <> Some q1 -> q1 <> q2 ->
  3 <= js_length q1 -> 3 <= js_length q2 ->
  name e = "AbortError" ->
  exists s',
    run s [Render q1; Render q2;
           FetchSettled (length (controllers s)) (Rejected e)] = Some s' /\
    isLoading s' = false /\
    stage_of s' (S (length (controllers s))) = Some AwaitFetch /\
    live s' (S (length (controllers s))).
Proof.
  intros Hm Hq1 Hne Hl1 Hl2 Hn.
  destruct (two_renders s q1 q2 Hm Hq1 Hne Hl1) as (Hrun & Hst & _ & Hp).
  set (s1 := commit q1 s) in *.
  assert (Hlen1 : length (controllers s1) = S (length (controllers s)))
    by apply commit_length.
  assert (Hnew : stage_of (commit q2 s1) (S (length (controllers s)))
                 = Some AwaitFetch).
  { rewrite <- Hlen1, commit_stage_new.
    destruct (Nat.ltb_spec (js_length q2) 3); [lia|done]. }
  assert (Habn : aborted_of (commit q2 s1) (S (length (controllers s)))
                 = Some false)
    by (rewrite <- Hlen1; apply commit_aborted_new).
  destruct (abort_rejection_state _ _ e Hst Hn)
    as (s' & Hstep & Hp' & _ & _ & Hother & Hab & (_&_&_&Hnet&_)).
  assert (Hnew' : stage_of s' (S (length (controllers s))) = Some AwaitFetch)
    by (rewrite Hother by lia; done).
  exists s'. split_and!; try done.
  - change (run s ([Render q1; Render q2] ++
                   [FetchSettled (length (controllers s)) (Rejected e)])
            = Some s').
    rewrite run_app, Hrun. cbn [mbind option_bind run]. now rewrite Hstep.
  - now injection Hp'.
  - split; [now rewrite Hab|]. eauto.
Qed.

Lemma loading_flag_drops_early_witness :
  exists s',
    run initial [Render "bat"; Render "sup";
                 FetchSettled (length (controllers initial))
                   (Rejected (AbortError "The user aborted a request."))]
    = Some s' /\
    isLoading s' = false /\
    stage_of s' (S (length (controllers initial))) = Some AwaitFetch /\
    live s' (S (length (controllers initial))).
Proof.
  apply (loading_flag_drops_early initial "bat" "sup"
           (AbortError "The user aborted a request."));
    [reflexivity | discriminate | discriminate | cbn; lia | cbn; lia
    | reflexivity].
Defined.

(** ** An attempt that fails *)

(** X8: an attempt that ends in an exception, from its start to its
    [finally], leaves [movies] as they were before it and [isLoading]
    false.  If the exception is named [AbortError] nothing is logged and
    [error] is empty, cleared at the start of the attempt whatever it was
    before; otherwise [error] is the exception's message and that message
    is the one line added to the console. *)
Theorem failed_attempt_keeps_movies s q r e :
  mounted s = true -> query s <> Some q -> 3 <= js_length q ->
  raises r = Some e ->
  exists s',
    run s (Render q :: deliver (length (controllers s)) r) = Some s' /\
    movies s' = movies s /\
    isLoading s' = false /\
    error s' = (if String.eqb (name e) "AbortError" then "" else message e) /\
    console s' =
      (if String.eqb (name e) "AbortError" then console s
       else (console s ++ [message e])%list).
Proof.
  intros Hm Hq Hlen Hr.
  pose proof (commit_stage_new s q) as Hn.
  pose proof (commit_published s q) as Hp.
  destruct (Nat.ltb_spec (js_length q) 3); [lia|].
  destruct (deliver_run (commit q s) _ r Hn) as (s' & Hrun & Hp' & Hlog & _).
  exists s'. unfold outcome in Hp'. unfold logged in Hlog.
  rewrite Hr in Hp', Hlog. rewrite Hp in Hp'. cbn in Hp'.
  injection Hp' as Hmv Hl He. rewrite commit_console in Hlog.
  split_and!; try done.
  cbn [run]. cbn [step]. rewrite Hm, render_changed by done. exact Hrun.
Qed.

Lemma failed_attempt_keeps_movies_witness :
  exists s',
    run bat_failed
      (Render "sup" ::
       deliver (length (controllers bat_failed))
         (NetworkFailure (AbortError "The user aborted a request.")))
    = Some s' /\
    movies s' = movies bat_failed /\
    isLoading s' = false /\
    error s' =
      (if String.eqb (name (AbortError "The user aborted a request."))
                     "AbortError"
       then "" else message (AbortError "The user aborted a request.")) /\
    console s' =
      (if String.eqb (name (AbortError "The user aborted a request."))
                     "AbortError"
       then console bat_failed
       else (console bat_failed ++
               [message (AbortError "The user aborted a request.")])%list).
Proof.
  apply (failed_attempt_keeps_movies bat_failed "sup");
    [reflexivity | discriminate | cbn; lia | reflexivity].
Defined.

(** The replies that raise: a network failure, a status outside 200 to
    299, a body that fails to parse or cannot be read, and [Response]
    equal to ["False"]. *)
Lemma raises_cases r :
  raises r <> None <->
  match r with
  | NetworkFailure _ => True
  | Answer res body =>
      ok res = false \/
      match body with
      | Rejected _ => True
      | Fulfilled data =>
          get_property data "Response" = None \/
          get_property data "Response" = Some (VStr "False")
      end
  end.
Proof.
  destruct r as [e|res body]; cbn.
  { split; [auto|discriminate]. }
  destruct (ok res) eqn:Hok; [|split; [auto|discriminate]].
  destruct body as [data|e]; [|split; [auto|discriminate]].
  destruct (get_property data "Response") as [answer|] eqn:Hd;
    [|split; [auto|discriminate]].
  destruct (strict_eq_string answer "False") eqn:Ha.
  - apply strict_eq_string_true in Ha. subst. split; [auto|discriminate].
  - split; [congruence|]. intros [?|[?|[= ->]]]; discriminate.
Qed.

(** ** The status in the message *)

Lemma decimal_inj n m : decimal n = decimal m -> n = m.
Proof.
  unfold decimal. intros H. apply Unsigned.to_uint_inj.
  apply (f_equal NilEmpty.uint_of_string) in H.
  rewrite !NilEmpty.usu in H. congruence.
Qed.

(** X10: the message thrown for a response that is not ok tells the
    status apart: two responses give the same message only if their
    status codes are equal. *)
Theorem http_error_message_tells_status res1 res2 :
  http_error_message res1 = http_error_message res2 ->
  status res1 = status res2.
Proof.
  unfold http_error_message. intros H%append_inj_prefix.
  now apply decimal_inj.
Qed.

Lemma http_error_message_tells_status_witness :
  status not_found_404 = status {| status := 404 |}.
Proof.
  apply (http_error_message_tells_status not_found_404 {| status := 404 |}).
  reflexivity.
Defined.

(** ** The effect run twice on mount *)

(** X11: when the effect is run, cleaned up and run again for the same
    fetch-triggering query, as [React.StrictMode] does on mount, two
    requests for the same URL go out, the first controller is aborted and
    the second is live; once the first [fetch] has rejected with an
    [AbortError] and the second request is answered, the published triple
    is the one a single run with that answer leaves. *)
Theorem remount_fetches_twice s q r e :
  3 <= js_length q ->
  name e = "AbortError" ->
  let n := length (controllers s) in
  network (remount q s) =
    (network s ++
       [{| method := "GET"; url := request_url q; signal := n |};
        {| method := "GET"; url := request_url q; signal := S n |}])%list /\
  aborted_of (remount q s) n = Some true /\
  live (remount q s) (S n) /\
  exists s' sRef,
    run (remount q s) (FetchSettled n (Rejected e) :: deliver (S n) r)
    = Some s' /\
    run (commit q s) (deliver n r) = Some sRef /\
    published s' = published sRef.
Proof.
  intros Hlen Hn n. unfold remount. set (s1 := commit q s).
  assert (Hlen1 : length (controllers s1) = S n) by apply commit_length.
  assert (Hgate : (js_length q <? 3)%nat = false)
    by (destruct (Nat.ltb_spec (js_length q) 3); [lia|done]).
  assert (Hold1 : stage_of s1 n = Some AwaitFetch).
  { unfold s1, n. now rewrite commit_stage_new, Hgate. }
  assert (Hold : stage_of (commit q s1) n = Some AwaitFetch)
    by (rewrite commit_stage_old by lia; done).
  assert (Hnew : stage_of (commit q s1) (S n) = Some AwaitFetch)
    by (rewrite <- Hlen1, commit_stage_new, Hgate; done).
  assert (Hp1 : published s1 = (movies s, true, "")).
  { unfold s1. now rewrite commit_published, Hgate. }
  assert (Hp2 : published (commit q s1) = (movies s, true, "")).
  { rewrite commit_published, Hgate. now injection Hp1 as -> _ _. }
  split_and!.
  - rewrite commit_network, Hgate, Hlen1. unfold s1.
    rewrite commit_network, Hgate. now rewrite <- app_assoc.
  - apply commit_aborts; [|lia]. unfold s1. now apply commit_cleanup.
  - split; [rewrite <- Hlen1; apply commit_aborted_new|]. eauto.
  - destruct (abort_rejection_state _ _ e Hold Hn)
      as (sB & HstepB & HpB & _ & _ & Hother & _).
    assert (HnewB : stage_of sB (S n) = Some AwaitFetch)
      by (rewrite Hother by lia; done).
    destruct (deliver_run sB (S n) r HnewB) as (s' & Hrun & Hp' & _).
    destruct (deliver_run s1 n r Hold1) as (sRef & HrunR & HpR & _).
    exists s', sRef. split_and!; try done.
    + cbn [run]. now rewrite HstepB.
    + rewrite Hp', HpR, HpB, Hp1. injection Hp2 as -> _ ->.
      apply outcome_loading.
Qed.

Lemma remount_fetches_twice_witness :
  network (remount "bat" initial) =
    (network initial ++
       [{| method := "GET"; url := request_url "bat";
           signal := length (controllers initial) |};
        {| method := "GET"; url := request_url "bat";
           signal := S (length (controllers initial)) |}])%list /\
  aborted_of (remount "bat" initial) (length (controllers initial))
  = Some true /\
  live (remount "bat" initial) (S (length (controllers initial))) /\
  exists s' sRef,
    run (remount "bat" initial)
      (FetchSettled (length (controllers initial))
         (Rejected (AbortError "The user aborted a request."))
       :: deliver (S (length (controllers initial)))
            (Answer ok_200 (Fulfilled bat_body)))
    = Some s' /\
    run (commit "bat" initial)
      (deliver (length (controllers initial))
         (Answer ok_200 (Fulfilled bat_body)))
    = Some sRef /\
    published s' = published sRef.
Proof.
  apply (remount_fetches_twice initial "bat"
           (Answer ok_200 (Fulfilled bat_body))
           (AbortError "The user aborted a request."));
    [cbn; lia | reflexivity].
Defined.

(** ** What a settled promise leaves alone *)

(** X12: a step that settles a promise of one invocation sends no
    request, leaves every controller's signal, the pending cleanup and the
    query as they were, and changes the stage of no other invocation; the
    invocation itself was outstanding before the step. *)
Theorem settling_touches_one_invocation s ev s' c :
  step s ev = Some s' -> settles c ev = true ->
  network s' = network s /\
  cleanup s' = cleanup s /\ query s' = query s /\
  (forall c', aborted_of s' c' = aborted_of s c') /\
  (forall c', c' <> c -> stage_of s' c' = stage_of s c') /\
  (exists p, stage_of s c = Some p /\ outstanding p = true).
Proof.
  intros Hstep Hset.
  destruct (settle_frame s ev s' c Hstep Hset)
    as ((p & _ & Hp & Ho & _) & Hst & Hab & (Hq & Hc & _ & Hn & _)).
  split_and!; eauto.
Qed.

Lemma settling_touches_one_invocation_witness :
  exists s',
    step sup_pending (FetchSettled 1 (Fulfilled ok_200)) = Some s' /\
    network s' = network sup_pending /\
    cleanup s' = cleanup sup_pending /\ query s' = query sup_pending /\
    (forall c', aborted_of s' c' = aborted_of sup_pending c') /\
    (forall c', c' <> 1 -> stage_of s' c' = stage_of sup_pending c') /\
    (exists p, stage_of sup_pending 1 = Some p /\ outstanding p = true).
Proof.
  eexists. split; [reflexivity|].
  apply (settling_touches_one_invocation sup_pending
           (FetchSettled 1 (Fulfilled ok_200)));
    reflexivity.
Defined.
